(** * Baresifter: candidate search engine and x86_32 bootstrap

    A shallow embedding of [src/common/search.cpp], [src/common/include/search.hpp]
    and [src/x86_32/arch.cpp], with the properties of the search engine, of the
    paging setup and of the interrupt dispatch routine stated over it.

    Conventions: a [uint8_t] is a [Z] in [0, 256) with its wrap-around written
    out ([uint8]); a [size_t] or [uintptr_t] of the 32-bit target is a [Z]
    reduced modulo [2^32] ([size_t], [u32]); C arrays are lists, read with
    [!!] and written with [<[ _ := _ ]>]; the array bound is checked where
    the index is not bounded by the loop that produces it. *)

From Stdlib Require Import ZArith Lia Bool String.
From stdpp Require Import base numbers list gmap.

Local Open Scope Z_scope.

(** How a call of a modelled function can end. *)
Inductive outcome (A : Type) : Type :=
| Done (a : A)            (* the call ran to its end *)
| OutOfBounds (idx : Z)   (* it indexed the candidate buffer at [idx], outside [0, 15) *)
| OutOfFuel.              (* the iteration budget of the model ran out *)
Arguments Done {A} a.
Arguments OutOfBounds {A} idx.
Arguments OutOfFuel {A}.

Module Search.

(** ** Machine integers *)

Definition uint8 (z : Z) : Z := z mod 256.

(** [size_t] is 32 bits wide on the x86_32 target. *)
Definition size_bits : Z := 32.
Definition size_t (z : Z) : Z := z mod 2 ^ size_bits.

(** [sizeof(instruction_bytes::raw)]. *)
Definition raw_size : Z := 15.

(** [array_size(count)] and [array_size(position)]. *)
Definition group_count : Z := 5.

(** ** File-scope configuration read by search.cpp

    [opcode_to_prefix_group] reads the identifier [detect_prefixes] and
    [prefix_state::has_unused_prefixes] reads [used_prefixes]. Neither is a
    member of [search_engine] (whose members are [max_prefixes_],
    [used_prefixes_] and [group_lut_]); their declarations are outside the
    source tree, so their values are parameters of the model. *)
Record globals : Type := Globals {
  detect_prefixes : Z;
  used_prefixes : Z
}.

(** ** The prefix group table *)

(** [mask & (1 << k)], as a C condition. *)
Definition bit_set (mask k : Z) : bool := negb (Z.land mask (Z.shiftl 1 k) =? 0).

(** [opcode_to_prefix_group]: the switch over the byte, each arm guarded by
    one bit of [detect_prefixes]. *)
Definition opcode_to_prefix_group (detect_prefixes : Z) (byte : Z) : Z :=
  if (byte =? 0xF0) || (byte =? 0xF2) || (byte =? 0xF3) then
    (if bit_set detect_prefixes 0 then 0 else -1)
  else if (byte =? 0x2E) || (byte =? 0x36) || (byte =? 0x3E) || (byte =? 0x26)
          || (byte =? 0x64) || (byte =? 0x65) then
    (if bit_set detect_prefixes 1 then 1 else -1)
  else if byte =? 0x66 then
    (if bit_set detect_prefixes 2 then 2 else -1)
  else if byte =? 0x67 then
    (if bit_set detect_prefixes 3 then 3 else -1)
  else if (0x40 <=? byte) && (byte <=? 0x4F) then
    (if bit_set detect_prefixes 4 then 4 else -1)
  else -1.

(** [create_prefix_group_lut]: entry [i] is the group of byte [i], for the
    256 byte values. The cast to [int8_t] is the identity on [-1 .. 4]. *)
Definition create_prefix_group_lut (detect_prefixes : Z) : list Z :=
  opcode_to_prefix_group detect_prefixes <$> seqZ 0 256.

(** The file-scope [static prefix_lut prefix_group_lut], initialised once
    from the file-scope [detect_prefixes]. *)
Definition prefix_group_lut (G : globals) : list Z :=
  create_prefix_group_lut (detect_prefixes G).

(** [a[i]] for an index the code keeps inside the array. *)
Definition at_ (a : list Z) (i : Z) : Z := default 0 (a !! Z.to_nat i).

(** [a[i] = v]. *)
Definition store (a : list Z) (i v : Z) : list Z := <[Z.to_nat i := v]> a.

(** ** prefix_state *)

Record prefix_state : Type := PrefixState {
  count : list Z;      (* uint8_t count[5] *)
  position : list Z    (* uint8_t position[5] *)
}.

(** Value-initialised members: [count {}] and [position {}]. *)
Definition prefix_state_init : prefix_state :=
  PrefixState (replicate 5 0) (replicate 5 0).

Definition total_prefix_bytes (st : prefix_state) : Z :=
  foldl (fun sum c => size_t (sum + c)) 0 (count st).

Definition has_duplicated_prefixes (st : prefix_state) : bool :=
  existsb (fun c => 2 <=? c) (count st).

Definition has_unused_prefixes (G : globals) (st : prefix_state) : bool :=
  existsb (fun i => negb (at_ (count st) i =? 0)
                    && (Z.land (used_prefixes G) (Z.shiftl 1 i) =? 0))
          (seqZ 0 group_count).

(** The two nested loops: [i] over [0, 4), [j] over [i + 1, 5); the first
    pair found out of order returns false. *)
Definition has_ordered_prefixes (st : prefix_state) : bool :=
  forallb (fun i =>
    forallb (fun j =>
      negb (negb (at_ (count st) i =? 0) && negb (at_ (count st) j =? 0)
            && (at_ (position st) i >? at_ (position st) j)))
      (seqZ (i + 1) (group_count - (i + 1))))
    (seqZ 0 (group_count - 1)).

(** The body of the loop of [analyze_prefixes] after the [break] test:
    [state.count[group]++; state.position[group] = i]. *)
Definition record_prefix (st : prefix_state) (group i : Z) : prefix_state :=
  PrefixState (store (count st) group (uint8 (at_ (count st) group + 1)))
              (store (position st) group (uint8 i)).

(** The loop of [analyze_prefixes], with [n] positions left to visit from
    position [i]. *)
Fixpoint analyze_loop (lut raw : list Z) (n : nat) (i : Z) (st : prefix_state)
  : prefix_state :=
  match n with
  | O => st
  | S n' =>
      let group := at_ lut (at_ raw i) in
      if group <? 0 then st
      else analyze_loop lut raw n' (i + 1) (record_prefix st group i)
  end.

Definition analyze_prefixes (G : globals) (raw : list Z) : prefix_state :=
  analyze_loop (prefix_group_lut G) raw (Z.to_nat raw_size) 0 prefix_state_init.

(** ** search_engine *)

Record search_engine : Type := SearchEngine {
  current_ : list Z;        (* instruction_bytes: uint8_t raw[15] *)
  increment_at_ : Z;        (* size_t *)
  max_prefixes_ : Z;        (* const size_t *)
  used_prefixes_ : Z;       (* const size_t *)
  group_lut_ : list Z       (* prefix_group_lut: int8_t data[256] *)
}.

Definition set_current (e : search_engine) (raw : list Z) : search_engine :=
  SearchEngine raw (increment_at_ e) (max_prefixes_ e) (used_prefixes_ e) (group_lut_ e).

Definition set_increment_at (e : search_engine) (i : Z) : search_engine :=
  SearchEngine (current_ e) i (max_prefixes_ e) (used_prefixes_ e) (group_lut_ e).

(** Modelled from the spec: the constructor
    [prefix_group_lut::prefix_group_lut(size_t)] is declared in search.hpp
    and its body is not in the source tree. The spec describes the table as
    "a 256-entry mapping from byte value to prefix-group id (or not a
    prefix), built once from a configuration bitmask"; the model builds it
    with the classification of search.cpp applied to the given bitmask. *)
Definition prefix_group_lut_new (detect_prefixes_ : Z) : list Z :=
  create_prefix_group_lut detect_prefixes_.

(** The constructor of [search_engine]; [start] holds the 15 bytes of the
    initial candidate ([instruction_bytes {}] is all zero). *)
Definition search_engine_new (max_prefixes used_prefixes detect_prefixes : Z)
    (start : list Z) : search_engine :=
  SearchEngine start 0 max_prefixes used_prefixes (prefix_group_lut_new detect_prefixes).

Definition instruction_bytes_zero : list Z := replicate 15 0.

Definition get_candidate (e : search_engine) : list Z := current_ e.

(** [memset(p, 0, n)] on the buffer. *)
Definition memset_zero (raw : list Z) (pos n : Z) : list Z :=
  take (Z.to_nat pos) raw ++ replicate (Z.to_nat n) 0 ++ drop (Z.to_nat (pos + n)) raw.

Definition clear_after (pos : Z) (e : search_engine) : search_engine :=
  if pos <? raw_size
  then set_current e (memset_zero (current_ e) pos (raw_size - pos))
  else e.

Definition start_over (length : Z) (e : search_engine) : search_engine :=
  set_increment_at e (size_t (length - 1)).

(** The test of [find_next_candidate] that sends the candidate back to
    [again]. *)
Definition rejected (G : globals) (e : search_engine) (st : prefix_state) : bool :=
  (total_prefix_bytes st >? max_prefixes_ e)
  || has_duplicated_prefixes st
  || has_unused_prefixes G st
  || negb (has_ordered_prefixes st).

(** [find_next_candidate]: one unit of [fuel] per pass through the label
    [again]. The buffer is indexed at [increment_at_], which no loop bounds,
    so the access is checked against the array. *)
Fixpoint find_next_candidate (G : globals) (fuel : nat) (e : search_engine)
  : outcome (bool * search_engine) :=
  match fuel with
  | O => OutOfFuel
  | S fuel' =>
      let idx := increment_at_ e in
      if (0 <=? idx) && (idx <? raw_size) then
        let b := uint8 (at_ (current_ e) idx + 1) in
        let e1 := set_current e (store (current_ e) idx b) in
        if b =? 0 then
          let e2 := set_increment_at e1 (size_t (idx - 1)) in
          if idx =? 0 then Done (false, e2)
          else find_next_candidate G fuel' e2
        else
          let st := analyze_prefixes G (current_ e1) in
          if rejected G e1 st then find_next_candidate G fuel' e1
          else Done (true, e1)
      else OutOfBounds idx
  end.

(** Repeated calls, as the driver makes them: up to [calls] calls, counting
    the candidates accepted before the call that reports exhaustion. *)
Fixpoint enumerate (G : globals) (fuel : nat) (calls : nat) (e : search_engine)
  : outcome (nat * search_engine) :=
  match calls with
  | O => OutOfFuel
  | S calls' =>
      match find_next_candidate G fuel e with
      | Done (true, e') =>
          match enumerate G fuel calls' e' with
          | Done (n, e'') => Done (S n, e'')
          | other => other
          end
      | Done (false, e') => Done (O, e')
      | OutOfBounds i => OutOfBounds i
      | OutOfFuel => OutOfFuel
      end
  end.

(** A well-formed engine: 15 bytes, each a [uint8_t]. *)
Definition wf_bytes (raw : list Z) : Prop :=
  length raw = 15%nat /\ Forall (fun b => 0 <= b < 256) raw.

(** ** The scan in the words of the specification

    The classified bytes are the leading bytes of the buffer that the table
    maps to a group; every classified byte bumps the count of its group and
    leaves its position as the position of the group. *)
Fixpoint leading_prefixes (lut raw : list Z) : list Z :=
  match raw with
  | [] => []
  | b :: rest => if at_ lut b <? 0 then [] else b :: leading_prefixes lut rest
  end.

Fixpoint classify (lut run : list Z) (i : Z) (st : prefix_state) : prefix_state :=
  match run with
  | [] => st
  | b :: rest => classify lut rest (i + 1) (record_prefix st (at_ lut b) i)
  end.

(** The classified bytes of group [g]. *)
Definition group_bytes (lut : list Z) (g : Z) (run : list Z) : list Z :=
  filter (fun b => at_ lut b = g) run.

Definition default_globals : globals := Globals 0xFF 0xFF.

Definition default_engine : search_engine :=
  search_engine_new 0 0xFF 0xFF instruction_bytes_zero.

(** ** Sample engines and measures used by the statements *)

(** A buffer with three prefixes, an opcode byte and a late prefix byte. *)
Definition sample_bytes : list Z := [0x66; 0x67; 0x40; 0x0F; 0x66; 0; 0; 0; 0; 0; 0; 0; 0; 0; 0].

(** Every group detected, only the operand-size group permitted. *)
Definition operand_size_only : globals := Globals 0xFF 0x04.

(** An engine that allows one prefix byte, standing at the candidate
    [65 00 ...] with the cursor on the first byte, and the same engine at
    the next candidate. *)
Definition engine_at_65 : search_engine :=
  search_engine_new 1 0x04 0xFF (0x65 :: replicate 14 0).

Definition engine_at_66 : search_engine :=
  set_current engine_at_65 (0x66 :: replicate 14 0).

(** A candidate with two prefixes: from [66 66 ...] with the cursor on the
    second byte, the next accepted candidate is [66 67 ...]. *)
Definition engine_at_66_66 : search_engine :=
  set_increment_at (search_engine_new 2 0xFF 0xFF (0x66 :: 0x66 :: replicate 13 0)) 1.

Definition engine_at_66_67 : search_engine :=
  set_current engine_at_66_66 (0x66 :: 0x67 :: replicate 13 0).

(** The bound on the passes through [again]: a pass either moves the cursor
    left or raises the byte under it. *)
Definition passes_left (e : search_engine) : Z :=
  256 * increment_at_ e + (256 - at_ (current_ e) (increment_at_ e)).

(** The engine with its members [used_prefixes_] and [group_lut_] replaced,
    and a result of a call with the same replacement. *)
Definition with_config (used : Z) (lut : list Z) (e : search_engine) : search_engine :=
  SearchEngine (current_ e) (increment_at_ e) (max_prefixes_ e) used lut.

Definition with_config_result (used : Z) (lut : list Z)
    (r : outcome (bool * search_engine)) : outcome (bool * search_engine) :=
  match r with
  | Done (b, e) => Done (b, with_config used lut e)
  | OutOfBounds i => OutOfBounds i
  | OutOfFuel => OutOfFuel
  end.

(** An engine at [FF FF 07 00 ...] with the cursor on the second byte. *)
Definition engine_at_ff_ff : search_engine :=
  set_increment_at (search_engine_new 0 0xFF 0xFF (0xFF :: 0xFF :: 7 :: replicate 12 0)) 1.

(** ** Order of the candidates *)

(** Lexicographic order on buffers: equal below position [k], smaller at
    [k]. *)
Definition lex_lt (a b : list Z) : Prop :=
  exists k, 0 <= k /\ (forall i, 0 <= i < k -> at_ a i = at_ b i) /\ at_ a k < at_ b k.

(** The candidates that up to [calls] successive calls accept, in the order
    the calls return them; the list ends at the first call that does not
    return true. *)
Fixpoint candidates (G : globals) (fuel : nat) (calls : nat) (e : search_engine)
  : list (list Z) :=
  match calls with
  | O => []
  | S calls' =>
      match find_next_candidate G fuel e with
      | Done (true, e') => current_ e' :: candidates G fuel calls' e'
      | _ => []
      end
  end.

End Search.

Module Arch.

(** ** Machine integers and missing declarations *)

(** [uintptr_t] and [uint32_t] of the 32-bit target. *)
Definition u32 (z : Z) : Z := z mod 2 ^ 32.

(** What arch.cpp takes from headers and from the linker that are outside
    the source tree: the constants of x86.hpp, the feature queries of
    cpu_features.hpp, [page_size], [bit_select] of util.hpp, the linker
    symbols [_image_start] and [_image_end], and the addresses the linker
    gives to the static arrays. *)
Record platform : Type := Platform {
  page_size : Z;
  PTE_P : Z; PTE_W : Z; PTE_U : Z; PTE_PS : Z;
  CR0_PG : Z; CR0_WP : Z;
  CR4_PSE : Z; CR4_SMEP : Z;
  has_pse : bool; has_wp : bool; has_smep : bool;
  bit_select : Z -> Z -> Z -> Z;
  image_start : Z; image_end : Z;
  pdt_addr : Z; user_pt_addr : Z; user_page_backing_addr : Z
}.

(** ** Paging state *)

(** A 32-bit word the paging setup stores to: an entry of [pdt], an entry of
    [user_pt], or the word at a physical address (the synthesized tables). *)
Inductive cell : Type :=
| Pdt (idx : Z)
| UserPt (idx : Z)
| Phys (addr : Z).

(** Control registers and the log of stores, newest first. *)
Record machine : Type := Machine {
  cr0 : Z;
  cr3 : Z;
  cr4 : Z;
  stores : list (cell * Z)
}.

Definition write (c : cell) (v : Z) (m : machine) : machine :=
  Machine (cr0 m) (cr3 m) (cr4 m) ((c, v) :: stores m).

Definition set_cr0 (v : Z) (m : machine) : machine :=
  Machine v (cr3 m) (cr4 m) (stores m).
Definition set_cr3 (v : Z) (m : machine) : machine :=
  Machine (cr0 m) v (cr4 m) (stores m).
Definition set_cr4 (v : Z) (m : machine) : machine :=
  Machine (cr0 m) (cr3 m) v (stores m).

(** How a bootstrap routine ends. Modelled from the spec: the macro [assert]
    of util.hpp is outside the source tree; the spec calls a failed one "a
    fatal startup assertion, never recovered", so a failed [assert] ends the
    routine with its message and the machine as it was at that point. *)
Inductive result (A : Type) : Type :=
| Ok (a : A) (m : machine)
| AssertFailed (msg : string) (m : machine)
| LoopsForever.
Arguments Ok {A} a m.
Arguments AssertFailed {A} msg m.
Arguments LoopsForever {A}.

Definition M (A : Type) : Type := machine -> result A.

Definition ret {A} (a : A) : M A := fun m => Ok a m.

Definition bind {A B} (x : M A) (f : A -> M B) : M B :=
  fun m => match x m with
           | Ok a m' => f a m'
           | AssertFailed msg m' => AssertFailed msg m'
           | LoopsForever => LoopsForever
           end.

Notation "'do' x <- c1 ; c2" := (bind c1 (fun x => c2))
  (at level 10, x name, c1 at level 100, c2 at level 200).
Notation "'run' c1 ; c2" := (bind c1 (fun _ => c2))
  (at level 10, c1 at level 100, c2 at level 200).

Definition assert_ (cond : bool) (msg : string) : M unit :=
  fun m => if cond then Ok tt m else AssertFailed msg m.

Definition update (f : machine -> machine) : M unit := fun m => Ok tt (f m).

Definition get_cr0 : M Z := fun m => Ok (cr0 m) m.
Definition get_cr4 : M Z := fun m => Ok (cr4 m) m.

(** [get_user_page]. *)
Definition get_user_page (P : platform) : Z := u32 (Z.shiftl 1 20 + page_size P).

(** [is_aligned], on a [uint64_t]. *)
Definition is_aligned (v : Z) (order : Z) : M bool :=
  run assert_ (order <? 64) "Order out of range" ;
  ret (0 =? Z.land v ((Z.shiftl 1 order mod 2 ^ 64) - 1)).

(** The first loop of [setup_paging]: one page directory entry per 4 MiB
    step [c] from the image start, while [c <= iend]. *)
Fixpoint map_image (P : platform) (fuel : nat) (c tablepos : Z) : M unit :=
  match fuel with
  | O => fun _ => LoopsForever
  | S fuel' =>
      if c <=? image_end P then
        let idx := Z.shiftr c 22 in
        let p := if has_pse P then Z.lor c (PTE_PS P) else tablepos in
        let tablepos' := if has_pse P then tablepos else u32 (tablepos + Z.shiftl 1 12) in
        run update (write (Pdt idx) (Z.lor (Z.lor (PTE_P P) (PTE_W P)) p)) ;
        map_image P fuel' (u32 (c + Z.shiftl 1 22)) tablepos'
      else ret tt
  end.

(** The innermost loop, [for (d = 0; d <= 1024;)]: [t[d++] = m | PTE_P | PTE_W]
    stores a 4-byte entry at [t + 4 * d]; then [m += 4096]. *)
Fixpoint fill_table (P : platform) (fuel : nat) (t d m : Z) : M unit :=
  match fuel with
  | O => fun _ => LoopsForever
  | S fuel' =>
      if d <=? 1024 then
        run update (write (Phys (u32 (t + 4 * d))) (Z.lor (Z.lor m (PTE_P P)) (PTE_W P))) ;
        fill_table P fuel' t (u32 (d + 1)) (u32 (m + 4096))
      else ret tt
  end.

(** The second loop over the image, run when large pages are missing: one
    table at [tablepos] per 4 MiB step. *)
Fixpoint map_tables (P : platform) (fuel : nat) (c tablepos : Z) : M unit :=
  match fuel with
  | O => fun _ => LoopsForever
  | S fuel' =>
      if c <=? image_end P then
        run fill_table P fuel' tablepos 0 c ;
        map_tables P fuel' (u32 (c + Z.shiftl 1 22)) (u32 (tablepos + 4096))
      else ret tt
  end.

Definition page_tables_start (P : platform) : Z :=
  let start := u32 (image_end P + Z.shiftl 1 22) in
  if negb (Z.land start 0xFFF =? 0)
  then Z.land (u32 (start + 0xFFF)) (Z.lnot 0xFFF)
  else start.

Definition setup_paging (P : platform) (fuel : nat) : M unit :=
  let istart := image_start P in
  do aligned <- is_aligned istart 22 ;
  run assert_ aligned "Image needs to start on large page boundary" ;
  run map_image P fuel istart (page_tables_start P) ;
  run (if negb (has_pse P) then map_tables P fuel istart (page_tables_start P) else ret tt) ;
  let up := get_user_page P in
  run assert_ (u32 (up + page_size P) <=? istart)
              "User page cannot be mapped into kernel area" ;
  run update (write (Pdt (bit_select P 32 22 up))
                    (Z.lor (Z.lor (user_pt_addr P) (PTE_U P)) (PTE_P P))) ;
  run update (write (UserPt (bit_select P 22 12 up))
                    (Z.lor (Z.lor (user_page_backing_addr P) (PTE_U P)) (PTE_P P))) ;
  run (if has_pse P || has_smep P then
         do v <- get_cr4 ;
         update (set_cr4 (Z.lor (Z.lor v (if has_pse P then CR4_PSE P else 0))
                                (if has_smep P then CR4_SMEP P else 0)))
       else ret tt) ;
  run update (set_cr3 (pdt_addr P)) ;
  do v <- get_cr0 ;
  update (set_cr0 (Z.lor (Z.lor v (CR0_PG P)) (if has_wp P then CR0_WP P else 0))).

(** The architectural values of the constants, with a 5 MiB image at 4 MiB
    on a CPU that has neither large pages, write protection nor SMEP. *)
Definition bits (hi lo v : Z) : Z := Z.land (Z.shiftr v lo) (Z.ones (hi - lo)).

Definition i386_platform (istart iend : Z) (pse : bool) : platform :=
  Platform 4096 1 2 4 0x80 (Z.shiftl 1 31) (Z.shiftl 1 16) (Z.shiftl 1 4) (Z.shiftl 1 20)
           pse false false bits istart iend 0x500000 0x501000 0x502000.

Definition reset_machine : machine := Machine 0x11 0 0 [].

(** What [f] observes of the machine a routine ends with, when it ends. *)
Definition after {A B : Type} (r : result A) (f : machine -> B) : option B :=
  match r with
  | Ok _ m => Some (f m)
  | _ => None
  end.

(** The stores made to the word at physical address [a]. *)
Definition phys_stores_at (a : Z) (m : machine) : list (cell * Z) :=
  List.filter (fun s => match fst s with Phys x => x =? a | _ => false end) (stores m).

(** ** Interrupt dispatch *)

(** The fields of [exception_frame] that arch.cpp names (the struct is
    declared in arch.hpp, outside the source tree); [gprs] holds the other
    saved registers. *)
Record exception_frame : Type := ExceptionFrame {
  vector : Z; error_code : Z;
  cs : Z; ip : Z; eflags : Z; ss : Z;
  edi : Z; esi : Z;
  gprs : list Z
}.

(** An argument of [format]: a string literal, a number, or [hex] of one. *)
Inductive piece : Type :=
| Text (s : string)
| Num (v : Z)
| Hex (v : Z).

(** The file-scope state of the sandbox, the memory that holds the caller's
    frames, CR2 and the diagnostic output. A null pointer is [0]. *)
Record kernel : Type := Kernel {
  ring0_continuation : Z;
  ring3_exception_frame : Z;
  tss_esp0 : Z;
  frames : gmap Z exception_frame;
  cr2 : Z;
  console : list piece
}.

(** How [irq_entry] leaves: by returning to the entry stub, by loading the
    stack pointer and jumping, or in [wait_forever]. *)
Inductive control : Type :=
| Returns (k : kernel)
| Resumes (esp eip : Z) (k : kernel)
| Halts (k : kernel).

Definition format (ps : list piece) (k : kernel) : kernel :=
  Kernel (ring0_continuation k) (ring3_exception_frame k) (tss_esp0 k)
         (frames k) (cr2 k) (console k ++ ps).

Definition print_exception (ef : exception_frame) (k : kernel) : kernel :=
  let k1 := format [Text "!!! exception "; Num (vector ef); Text " ("; Hex (error_code ef);
                    Text ") at "; Hex (cs ef); Text ":"; Hex (ip ef); Text "\n"] k in
  let k2 := format [Text "!!! CR2 "; Hex (cr2 k1); Text "\n"] k1 in
  let k3 := format [Text "!!! EDI "; Hex (edi ef); Text "\n"] k2 in
  format [Text "!!! ESI "; Hex (esi ef); Text "\n"] k3.

Definition irq_entry (ef : exception_frame) (k : kernel) : control :=
  if negb (Z.land (cs ef) 3 =? 0) && negb (ring0_continuation k =? 0) then
    let ret_ := ring0_continuation k in
    let k1 := Kernel 0 (ring3_exception_frame k) (tss_esp0 k) (frames k) (cr2 k) (console k) in
    let k2 := if negb (ring3_exception_frame k1 =? 0)
              then Kernel (ring0_continuation k1) 0 (tss_esp0 k1)
                          (<[ring3_exception_frame k1 := ef]> (frames k1))
                          (cr2 k1) (console k1)
              else k1 in
    Resumes (tss_esp0 k2) ret_ k2
  else
    Halts (format [Text "!!! We're dead...\n"] (print_exception ef k)).

(** An invalid-opcode fault taken at ring 3 in the user page, and the
    sandbox state while a candidate runs: continuation and capture slot set. *)
Definition user_fault : exception_frame :=
  ExceptionFrame 6 0 0x1B 0x101000 0x10102 0x23 1 2 [].

Definition sandbox_pending : kernel :=
  Kernel 0x401234 0x7FF00 0x80000 ∅ 0 [].

(** What the fatal path prints: the four lines of [print_exception] and
    the last line of [irq_entry]. *)
Definition dead_report (ef : exception_frame) (k : kernel) : list piece :=
  [Text "!!! exception "; Num (vector ef); Text " ("; Hex (error_code ef);
   Text ") at "; Hex (cs ef); Text ":"; Hex (ip ef); Text "\n";
   Text "!!! CR2 "; Hex (cr2 k); Text "\n";
   Text "!!! EDI "; Hex (edi ef); Text "\n";
   Text "!!! ESI "; Hex (esi ef); Text "\n";
   Text "!!! We're dead...\n"].

(** ** Reading the memory the setup wrote *)

Definition cell_eqb (a b : cell) : bool :=
  match a, b with
  | Pdt i, Pdt j => i =? j
  | UserPt i, UserPt j => i =? j
  | Phys x, Phys y => x =? y
  | _, _ => false
  end.

(** The value a word holds after the stores of the log: that of the newest
    store to it. *)
Fixpoint read_log (c : cell) (log : list (cell * Z)) : option Z :=
  match log with
  | [] => None
  | (c', v) :: rest => if cell_eqb c c' then Some v else read_log c rest
  end.

Definition read (c : cell) (m : machine) : option Z := read_log c (stores m).

(** The number of 4 MiB steps the loops over the image make. *)
Definition image_chunks (P : platform) : Z :=
  if image_start P <=? image_end P
  then (image_end P - image_start P) / 2 ^ 22 + 1
  else 0.

(** ** Layouts and outcomes used by the statements *)

(** The layout [setup_paging] is written for: the image starts on a 4 MiB
    boundary and is not empty, the image, the 4 MiB gap and the tables end
    below 4 GiB, and the user page lies below the image. *)
Definition sound_layout (P : platform) : Prop :=
  image_start P mod 2 ^ 22 = 0
  /\ 0 <= image_start P <= image_end P
  /\ image_end P + 2 ^ 23 + 2 ^ 13 < 2 ^ 32
  /\ 0 < page_size P
  /\ 2 ^ 20 + 2 * page_size P <= image_start P.

(** A loop ends normally with the control registers as they were, or runs
    out of budget; it has no assertion to fail. *)
Definition keeps_control_registers (m : machine) (r : result unit) : Prop :=
  match r with
  | Ok _ m' => cr0 m' = cr0 m /\ cr3 m' = cr3 m /\ cr4 m' = cr4 m
  | AssertFailed _ _ => False
  | LoopsForever => True
  end.

(** The 4 MiB base of the architectural constants with large pages. *)
Definition i386_pse : platform := i386_platform 0x400000 0x900000 true.
Definition i386_no_pse : platform := i386_platform 0x400000 0x900000 false.

(** ** [execute_user] *)

(** The segment selectors of selectors.hpp, outside the source tree. *)
Record selectors : Type := Selectors {
  ring0_code_selector : Z;
  ring0_data_selector : Z;
  ring0_tss_selector : Z;
  ring3_code_selector : Z;
  ring3_data_selector : Z
}.

(** The two registers [execute_user] keeps across the run, and the
    file-scope words [clobbered_ebp] and [clobbered_edi] it keeps them in. *)
Record kept_regs : Type := KeptRegs {
  reg_ebp : Z;
  reg_edi : Z;
  clobbered_ebp : Z;
  clobbered_edi : Z
}.

(** The local [user] after the four assignments; [blank] is the
    value-initialised [exception_frame user {}]. *)
Definition execute_user_frame (S : selectors) (blank : exception_frame) (ip : Z)
  : exception_frame :=
  ExceptionFrame (vector blank) (error_code blank)
                 (ring3_code_selector S) ip (Z.lor (Z.shiftl 1 8) 2)
                 (ring3_data_selector S)
                 (edi blank) (esi blank) (gprs blank).

(** [execute_user] up to [jmp irq_exit]: [user_addr] is the address of the
    local [user], [esp] the stack pointer at the asm statement and [resume]
    the address of the label [1]. The capture pointer, the two kept
    registers, the continuation and [tss.esp0] are written; the stack
    pointer the jump is made on is [user_addr]. *)
Definition execute_user_enter (S : selectors) (blank : exception_frame)
    (ip user_addr esp resume : Z) (r : kept_regs) (k : kernel)
  : kept_regs * kernel * Z :=
  let user := execute_user_frame S blank ip in
  (KeptRegs (reg_ebp r) (reg_edi r) (reg_ebp r) (reg_edi r),
   Kernel resume user_addr esp (<[user_addr := user]> (frames k)) (cr2 k) (console k),
   user_addr).

(** [execute_user] from the label [1]: the two registers are loaded back
    and [user] is returned. *)
Definition execute_user_leave (user_addr : Z) (r : kept_regs) (k : kernel)
  : kept_regs * option exception_frame :=
  (KeptRegs (clobbered_ebp r) (clobbered_edi r) (clobbered_ebp r) (clobbered_edi r),
   frames k !! user_addr).

(** ** [setup_idt] *)

(** A gate as [idt_desc::interrupt_gate] is given it (the descriptor layout
    is in a header outside the source tree). *)
Record idt_desc : Type := InterruptGate {
  gate_selector : Z;
  gate_offset : Z;
  gate_arg3 : Z;
  gate_arg4 : Z
}.

(** [reinterpret_cast<uint64_t>] of a 32-bit pointer. The conversion is
    implementation-defined; GCC documents that it sign-extends a pointer
    narrower than the integer type, so an address from [2^31] on gets ones
    in its upper 32 bits. *)
Definition ptr_to_u64 (p : Z) : Z :=
  if p <? 2 ^ 31 then p else p + (2 ^ 64 - 2 ^ 32).

(** The table [setup_idt] builds and loads: one gate per entry stub, the
    stubs taken to be evenly spaced between [irq_entry_start] and
    [irq_entry_end] (with [irq_entry_start <= irq_entry_end] the division of C
    is the one of [Z]); the address of stub [i] is computed on 32 bits and
    handed to [interrupt_gate] through the cast. *)
Definition setup_idt (S : selectors) (irq_entry_start irq_entry_end irq_entry_count : Z)
  : list idt_desc :=
  let entry_fn_size := (irq_entry_end - irq_entry_start) / irq_entry_count in
  (fun i => InterruptGate (ring0_code_selector S)
                          (ptr_to_u64 (u32 (irq_entry_start + i * entry_fn_size))) 0 0)
    <$> seqZ 0 irq_entry_count.

Definition i386_selectors : selectors := Selectors 0x08 0x10 0x18 0x23 0x2B.
Definition blank_frame : exception_frame := ExceptionFrame 0 0 0 0 0 0 0 0 [].

End Arch.

(** * Properties of the search engine *)

Module SearchSpec.
Import Search.

(** ** Reading the boolean tests *)

Lemma has_duplicated_prefixes_false st g :
  has_duplicated_prefixes st = false -> at_ (count st) g < 2.
Proof.
  unfold has_duplicated_prefixes, at_. intros H.
  destruct (count st !! Z.to_nat g) as [c|] eqn:E; simpl; [|lia].
  destruct (Z.leb_spec 2 c) as [Hc|Hc]; [|lia].
  assert (existsb (fun c => 2 <=? c) (count st) = true) as Ht.
  { apply existsb_exists. exists c. split.
    - apply list_elem_of_In. eapply list_elem_of_lookup_2. exact E.
    - apply Z.leb_le. lia. }
  congruence.
Qed.

Lemma group_cases g : 0 <= g < 5 -> g = 0 \/ g = 1 \/ g = 2 \/ g = 3 \/ g = 4.
Proof. lia. Qed.

Lemma has_unused_prefixes_false G st g :
  has_unused_prefixes G st = false ->
  0 <= g < 5 -> at_ (count st) g <> 0 ->
  Z.land (used_prefixes G) (Z.shiftl 1 g) <> 0.
Proof.
  unfold has_unused_prefixes. intros H Hg Hc Hu.
  assert (existsb (fun i => negb (at_ (count st) i =? 0)
                    && (Z.land (used_prefixes G) (Z.shiftl 1 i) =? 0))
                  (seqZ 0 group_count) = true) as Ht; [|congruence].
  apply existsb_exists. exists g. split.
  - apply list_elem_of_In, elem_of_seqZ. unfold group_count. lia.
  - apply andb_true_iff. split.
    + apply negb_true_iff, Z.eqb_neq. exact Hc.
    + apply Z.eqb_eq. exact Hu.
Qed.

Lemma has_ordered_prefixes_true st i j :
  has_ordered_prefixes st = true ->
  0 <= i -> i < j -> j < 5 ->
  at_ (count st) i <> 0 -> at_ (count st) j <> 0 ->
  at_ (position st) i <= at_ (position st) j.
Proof.
  unfold has_ordered_prefixes. intros H Hi Hij Hj Hci Hcj.
  rewrite forallb_forall in H.
  specialize (H i). rewrite forallb_forall in H.
  assert (In i (seqZ 0 (group_count - 1))) as Hin.
  { apply list_elem_of_In, elem_of_seqZ. unfold group_count. lia. }
  specialize (H Hin j).
  assert (In j (seqZ (i + 1) (group_count - (i + 1)))) as Hjn.
  { apply list_elem_of_In, elem_of_seqZ. unfold group_count. lia. }
  specialize (H Hjn).
  apply negb_true_iff in H.
  destruct (Z.gtb_spec (at_ (position st) i) (at_ (position st) j)) as [Hgt|Hle]; [|lia].
  apply Z.eqb_neq in Hci, Hcj. rewrite Hci, Hcj in H. simpl in H. discriminate.
Qed.

(** ** What an accepting call went through *)

Lemma find_next_candidate_accept G fuel : forall e e',
  find_next_candidate G fuel e = Done (true, e') ->
  rejected G e' (analyze_prefixes G (current_ e')) = false
  /\ max_prefixes_ e' = max_prefixes_ e
  /\ used_prefixes_ e' = used_prefixes_ e
  /\ group_lut_ e' = group_lut_ e
  /\ length (current_ e') = length (current_ e).
Proof.
  induction fuel as [|fuel IH]; intros e e' H; simpl in H; [discriminate|].
  destruct ((0 <=? increment_at_ e) && (increment_at_ e <? raw_size)); [|discriminate].
  destruct (uint8 (at_ (current_ e) (increment_at_ e) + 1) =? 0).
  - destruct (increment_at_ e =? 0); [discriminate|].
    apply IH in H. simpl in H. unfold store in H. rewrite length_insert in H. exact H.
  - match type of H with (if ?c then _ else _) = _ => destruct c eqn:Hr end.
    + apply IH in H. simpl in H. unfold store in H. rewrite length_insert in H. exact H.
    + injection H as <-. simpl. unfold store. rewrite length_insert. auto.
Qed.

(** ** The table *)

Lemma opcode_to_prefix_group_range d b : -1 <= opcode_to_prefix_group d b < 5.
Proof.
  unfold opcode_to_prefix_group.
  repeat match goal with |- context [if ?c then _ else _] => destruct c end; lia.
Qed.

Lemma lut_length d : length (create_prefix_group_lut d) = 256%nat.
Proof. unfold create_prefix_group_lut. rewrite length_fmap, length_seqZ. reflexivity. Qed.

Lemma lut_at d b :
  0 <= b < 256 -> at_ (create_prefix_group_lut d) b = opcode_to_prefix_group d b.
Proof.
  intros Hb. unfold at_, create_prefix_group_lut.
  rewrite list_lookup_fmap, lookup_seqZ_lt by lia. simpl.
  f_equal. lia.
Qed.

Lemma lut_range d b : -1 <= at_ (create_prefix_group_lut d) b < 5.
Proof.
  unfold at_, create_prefix_group_lut. rewrite list_lookup_fmap.
  destruct (seqZ 0 256 !! Z.to_nat b) as [x|]; simpl; [|lia].
  apply opcode_to_prefix_group_range.
Qed.

Lemma size_t_small z : 0 <= z < 2 ^ 32 -> size_t z = z.
Proof. intros Hz. unfold size_t, size_bits. apply Z.mod_small. exact Hz. Qed.

(** ** Array reads after a store *)

Lemma at_store_eq a i v :
  0 <= i -> (Z.to_nat i < length a)%nat -> at_ (store a i v) i = v.
Proof.
  intros Hi Hl. unfold at_, store. rewrite list_lookup_insert_eq by exact Hl. reflexivity.
Qed.

Lemma at_store_ne a i j v :
  0 <= i -> 0 <= j -> i <> j -> at_ (store a i v) j = at_ a j.
Proof.
  intros Hi Hj Hne. unfold at_, store. rewrite list_lookup_insert_ne by lia. reflexivity.
Qed.

Lemma at_lookup a (k : nat) b : a !! k = Some b -> at_ a (Z.of_nat k) = b.
Proof. intros H. unfold at_. rewrite Nat2Z.id, H. reflexivity. Qed.

Lemma length_store a i v : length (store a i v) = length a.
Proof. unfold store. apply length_insert. Qed.

(** ** The loop of [analyze_prefixes] is the scan of the specification *)

Lemma analyze_loop_classify lut raw n : forall k st,
  (k + n <= length raw)%nat ->
  analyze_loop lut raw n (Z.of_nat k) st
  = classify lut (leading_prefixes lut (take n (drop k raw))) (Z.of_nat k) st.
Proof.
  induction n as [|n IH]; intros k st Hk; simpl.
  - reflexivity.
  - destruct (lookup_lt_is_Some_2 raw k) as [b Hb]; [lia|].
    rewrite (drop_S _ _ _ Hb). simpl.
    rewrite (at_lookup _ _ _ Hb).
    destruct (at_ lut b <? 0); [reflexivity|]. simpl.
    replace (Z.of_nat k + 1) with (Z.of_nat (S k)) by lia.
    apply IH. lia.
Qed.

Lemma analyze_prefixes_classify G raw :
  length raw = 15%nat ->
  analyze_prefixes G raw
  = classify (prefix_group_lut G) (leading_prefixes (prefix_group_lut G) raw) 0 prefix_state_init.
Proof.
  intros Hl. unfold analyze_prefixes.
  change 0 with (Z.of_nat 0) at 1.
  rewrite analyze_loop_classify by (rewrite Hl; vm_compute; lia).
  rewrite drop_0, take_ge by (rewrite Hl; vm_compute; lia). reflexivity.
Qed.

(** The leading run is an initial segment of the buffer, made of prefix
    bytes, and what follows it is not a prefix byte. *)
Lemma leading_prefixes_take lut raw :
  leading_prefixes lut raw = take (length (leading_prefixes lut raw)) raw.
Proof.
  induction raw as [|b rest IH]; simpl; [reflexivity|].
  destruct (at_ lut b <? 0); simpl; [reflexivity|]. f_equal. exact IH.
Qed.

Lemma leading_prefixes_length lut raw :
  (length (leading_prefixes lut raw) <= length raw)%nat.
Proof.
  induction raw as [|b rest IH]; simpl; [lia|].
  destruct (at_ lut b <? 0); simpl; lia.
Qed.

Lemma leading_prefixes_all lut raw b :
  b ∈ leading_prefixes lut raw -> 0 <= at_ lut b.
Proof.
  induction raw as [|x rest IH]; simpl; [intros H; inversion H|].
  destruct (Z.ltb_spec (at_ lut x) 0); [intros H'; inversion H'|].
  intros [->|Hin]%elem_of_cons; [lia|auto].
Qed.

Lemma leading_prefixes_stop lut raw :
  (length (leading_prefixes lut raw) < length raw)%nat ->
  at_ lut (at_ raw (Z.of_nat (length (leading_prefixes lut raw)))) < 0.
Proof.
  induction raw as [|x rest IH]; simpl; [lia|].
  destruct (Z.ltb_spec (at_ lut x) 0) as [Hx|Hx]; simpl.
  - intros _. exact Hx.
  - intros Hl. specialize (IH ltac:(lia)).
    unfold at_ at 2. unfold at_ at 2 in IH. rewrite Nat2Z.id in *. exact IH.
Qed.

(** ** Counts and positions left by the scan *)

Lemma record_prefix_count st grp i g :
  length (count st) = 5%nat -> 0 <= grp < 5 -> 0 <= g ->
  at_ (count (record_prefix st grp i)) g
  = if decide (grp = g) then uint8 (at_ (count st) g + 1) else at_ (count st) g.
Proof.
  intros Hl Hgrp Hg. simpl. destruct (decide (grp = g)) as [->|Hne].
  - apply at_store_eq; lia.
  - apply at_store_ne; lia.
Qed.

Lemma record_prefix_position st grp i g :
  length (position st) = 5%nat -> 0 <= grp < 5 -> 0 <= g ->
  at_ (position (record_prefix st grp i)) g
  = if decide (grp = g) then uint8 i else at_ (position st) g.
Proof.
  intros Hl Hgrp Hg. simpl. destruct (decide (grp = g)) as [->|Hne].
  - apply at_store_eq; lia.
  - apply at_store_ne; lia.
Qed.

Lemma classify_count lut run : forall i st g,
  (forall b, b ∈ run -> 0 <= at_ lut b < 5) ->
  length (count st) = 5%nat -> 0 <= g < 5 ->
  0 <= at_ (count st) g ->
  at_ (count st) g + Z.of_nat (length run) < 256 ->
  at_ (count (classify lut run i st)) g
  = at_ (count st) g + Z.of_nat (length (group_bytes lut g run)).
Proof.
  induction run as [|b rest IH]; intros i st g Hrun Hl Hg H0 Hlt; simpl.
  - lia.
  - assert (0 <= at_ lut b < 5) as Hb by (apply Hrun; left).
    simpl in Hlt.
    pose proof (record_prefix_count st (at_ lut b) i g Hl Hb ltac:(lia)) as Hrec.
    rewrite IH.
    + rewrite Hrec. unfold group_bytes. rewrite filter_cons.
      destruct (decide (at_ lut b = g)); simpl.
      * unfold uint8. rewrite Z.mod_small by lia. lia.
      * lia.
    + intros x Hx. apply Hrun. right. exact Hx.
    + simpl. rewrite length_store. exact Hl.
    + exact Hg.
    + rewrite Hrec. destruct (decide (at_ lut b = g)); [|lia].
      unfold uint8. rewrite Z.mod_small by lia. lia.
    + rewrite Hrec. destruct (decide (at_ lut b = g)); [|lia].
      unfold uint8. rewrite Z.mod_small by lia. lia.
Qed.

(** The position recorded for a group is that of its last classified byte;
    a group with no classified byte keeps the position it had. *)
Lemma classify_position lut run : forall i st g,
  (forall b, b ∈ run -> 0 <= at_ lut b < 5) ->
  length (position st) = 5%nat -> 0 <= g < 5 ->
  0 <= i -> i + Z.of_nat (length run) <= 256 ->
  (group_bytes lut g run = []
   /\ at_ (position (classify lut run i st)) g = at_ (position st) g)
  \/ (exists (k : nat) (b : Z),
        at_ (position (classify lut run i st)) g = i + Z.of_nat k
        /\ run !! k = Some b /\ at_ lut b = g
        /\ forall (k' : nat) b', (k < k')%nat -> run !! k' = Some b' -> at_ lut b' <> g).
Proof.
  induction run as [|b rest IH]; intros i st g Hrun Hl Hg Hi Hlen; simpl.
  - left. split; reflexivity.
  - assert (0 <= at_ lut b < 5) as Hb by (apply Hrun; left).
    simpl in Hlen.
    pose proof (record_prefix_position st (at_ lut b) i g Hl Hb ltac:(lia)) as Hrec.
    destruct (IH (i + 1) (record_prefix st (at_ lut b) i) g) as [[Hnone Hp]|(k & x & Hp & Hk & Hx & Hlast)].
    + intros x Hx. apply Hrun. right. exact Hx.
    + simpl. rewrite length_store. exact Hl.
    + exact Hg.
    + lia.
    + lia.
    + rewrite Hp, Hrec. unfold group_bytes in *. rewrite filter_cons.
      destruct (decide (at_ lut b = g)) as [Hbg|Hbg].
      * right. exists 0%nat, b. split; [|split; [reflexivity|split; [exact Hbg|]]].
        -- unfold uint8. rewrite Z.mod_small by lia. lia.
        -- intros k' b' Hk' Hb'. destruct k' as [|k']; [lia|]. simpl in Hb'.
           intros Hg'.
           assert (b' ∈ filter (fun b0 => at_ lut b0 = g) rest) as Hin.
           { apply list_elem_of_filter. split; [exact Hg'|].
             eapply list_elem_of_lookup_2. exact Hb'. }
           rewrite Hnone in Hin. inversion Hin.
      * left. split; [exact Hnone|reflexivity].
    + right. exists (S k), x. split; [|split; [exact Hk|split; [exact Hx|]]].
      * rewrite Hp. lia.
      * intros k' b' Hk' Hb'. destruct k' as [|k']; [lia|]. simpl in Hb'.
        eapply Hlast; [|exact Hb']. lia.
Qed.

Lemma run_lookup lut raw (k : nat) b :
  leading_prefixes lut raw !! k = Some b -> at_ raw (Z.of_nat k) = b.
Proof.
  intros H. apply at_lookup.
  rewrite leading_prefixes_take in H. apply lookup_take_Some in H. tauto.
Qed.

Lemma run_groups G raw b :
  b ∈ leading_prefixes (prefix_group_lut G) raw -> 0 <= at_ (prefix_group_lut G) b < 5.
Proof.
  intros H. apply leading_prefixes_all in H.
  pose proof (lut_range (detect_prefixes G) b) as Hr.
  unfold prefix_group_lut in *. lia.
Qed.

Lemma analysis_count G raw g :
  length raw = 15%nat -> 0 <= g < 5 ->
  at_ (count (analyze_prefixes G raw)) g
  = Z.of_nat (length (group_bytes (prefix_group_lut G) g
                        (leading_prefixes (prefix_group_lut G) raw))).
Proof.
  intros Hl Hg. rewrite analyze_prefixes_classify by exact Hl.
  pose proof (leading_prefixes_length (prefix_group_lut G) raw) as Hlen.
  assert (at_ (count prefix_state_init) g = 0) as H0.
  { destruct (group_cases g Hg) as [->|[->|[->|[->| ->]]]]; reflexivity. }
  rewrite classify_count.
  - rewrite H0. lia.
  - intros b. apply run_groups.
  - reflexivity.
  - exact Hg.
  - lia.
  - rewrite H0. lia.
Qed.

Lemma analysis_position G raw g :
  length raw = 15%nat -> 0 <= g < 5 ->
  at_ (count (analyze_prefixes G raw)) g <> 0 ->
  exists k : nat,
    at_ (position (analyze_prefixes G raw)) g = Z.of_nat k
    /\ (k < length (leading_prefixes (prefix_group_lut G) raw))%nat
    /\ at_ (prefix_group_lut G) (at_ raw (Z.of_nat k)) = g
    /\ forall k' : nat,
         (k < k' < length (leading_prefixes (prefix_group_lut G) raw))%nat ->
         at_ (prefix_group_lut G) (at_ raw (Z.of_nat k')) <> g.
Proof.
  intros Hl Hg Hc. rewrite analysis_count in Hc by assumption.
  pose proof (leading_prefixes_length (prefix_group_lut G) raw) as Hlen.
  rewrite analyze_prefixes_classify by exact Hl.
  destruct (classify_position (prefix_group_lut G)
              (leading_prefixes (prefix_group_lut G) raw) 0 prefix_state_init g)
    as [[Hnone _]|(k & b & Hp & Hk & Hb & Hlast)].
  - intros b. apply run_groups.
  - reflexivity.
  - exact Hg.
  - lia.
  - lia.
  - rewrite Hnone in Hc. simpl in Hc. lia.
  - exists k. split; [rewrite Hp; lia|]. split.
    + apply lookup_lt_Some in Hk. exact Hk.
    + split.
      * rewrite (run_lookup _ _ _ _ Hk). exact Hb.
      * intros k' Hk'.
        destruct (lookup_lt_is_Some_2 (leading_prefixes (prefix_group_lut G) raw) k')
          as [b' Hb']; [lia|].
        rewrite (run_lookup _ _ _ _ Hb'). eapply Hlast; [|exact Hb']. lia.
Qed.

Lemma classify_count_length lut run : forall i st,
  length (count (classify lut run i st)) = length (count st).
Proof.
  induction run as [|b rest IH]; intros i st; simpl; [reflexivity|].
  rewrite IH. simpl. apply length_store.
Qed.

Lemma group_bytes_partition lut run :
  (forall b, b ∈ run -> 0 <= at_ lut b < 5) ->
  (length (group_bytes lut 0 run) + length (group_bytes lut 1 run)
   + length (group_bytes lut 2 run) + length (group_bytes lut 3 run)
   + length (group_bytes lut 4 run) = length run)%nat.
Proof.
  induction run as [|b rest IH]; intros Hrun; [reflexivity|].
  assert (0 <= at_ lut b < 5) as Hb by (apply Hrun; left).
  specialize (IH (fun x Hx => Hrun x (list_elem_of_further _ _ _ Hx))).
  unfold group_bytes in *. rewrite !filter_cons.
  repeat match goal with |- context [decide ?P] => destruct (decide P) end;
    simpl; lia.
Qed.

(** The total is the number of scanned bytes. *)
Lemma total_prefix_bytes_scan G raw :
  length raw = 15%nat ->
  total_prefix_bytes (analyze_prefixes G raw)
  = Z.of_nat (length (leading_prefixes (prefix_group_lut G) raw)).
Proof.
  intros Hl.
  pose proof (analysis_count G raw 0 Hl ltac:(lia)) as H0.
  pose proof (analysis_count G raw 1 Hl ltac:(lia)) as H1.
  pose proof (analysis_count G raw 2 Hl ltac:(lia)) as H2.
  pose proof (analysis_count G raw 3 Hl ltac:(lia)) as H3.
  pose proof (analysis_count G raw 4 Hl ltac:(lia)) as H4.
  pose proof (group_bytes_partition (prefix_group_lut G)
                (leading_prefixes (prefix_group_lut G) raw)
                (fun b => run_groups G raw b)) as Hsum.
  pose proof (leading_prefixes_length (prefix_group_lut G) raw) as Hlen.
  assert (length (count (analyze_prefixes G raw)) = 5%nat) as Hc.
  { rewrite analyze_prefixes_classify by exact Hl. rewrite classify_count_length. reflexivity. }
  unfold total_prefix_bytes.
  remember (count (analyze_prefixes G raw)) as cs eqn:Hcs. clear Hcs.
  destruct cs as [|c0 [|c1 [|c2 [|c3 [|c4 [|]]]]]]; try discriminate Hc.
  unfold at_ in H0, H1, H2, H3, H4. simpl in H0, H1, H2, H3, H4. simpl.
  rewrite (size_t_small (0 + c0)) by lia.
  rewrite (size_t_small (0 + c0 + c1)) by lia.
  rewrite (size_t_small (0 + c0 + c1 + c2)) by lia.
  rewrite (size_t_small (0 + c0 + c1 + c2 + c3)) by lia.
  rewrite (size_t_small (0 + c0 + c1 + c2 + c3 + c4)) by lia.
  lia.
Qed.

(** ** Claims on [analyze_prefixes] *)

(** C5. [analyze_prefixes] scans the buffer from position 0 with the
    256-entry table: the scanned bytes [run] are an initial segment of the
    buffer, all prefix bytes, ended by the first byte that is not a prefix
    or by the end of the 15 bytes; the result is what counting each scanned
    byte in its group and recording its position gives; the count of a group
    is the number of its scanned bytes and its position that of the last
    one; and two buffers with the same scanned bytes have the same analysis,
    so the bytes from the first non-prefix byte on contribute nothing. *)
Theorem analyze_prefixes_scan G raw :
  wf_bytes raw ->
  let lut := prefix_group_lut G in
  let run := leading_prefixes lut raw in
  let st := analyze_prefixes G raw in
  length lut = 256%nat
  /\ run = take (length run) raw
  /\ (forall b, b ∈ run -> 0 <= at_ lut b < 5)
  /\ ((length run < 15)%nat -> at_ lut (at_ raw (Z.of_nat (length run))) < 0)
  /\ st = classify lut run 0 prefix_state_init
  /\ (forall g, 0 <= g < 5 ->
        at_ (count st) g = Z.of_nat (length (group_bytes lut g run)))
  /\ (forall g, 0 <= g < 5 -> at_ (count st) g <> 0 ->
        exists k : nat,
          at_ (position st) g = Z.of_nat k /\ (k < length run)%nat
          /\ at_ lut (at_ raw (Z.of_nat k)) = g
          /\ forall k' : nat, (k < k' < length run)%nat ->
                              at_ lut (at_ raw (Z.of_nat k')) <> g)
  /\ (forall raw', wf_bytes raw' -> leading_prefixes lut raw' = run ->
                   analyze_prefixes G raw' = st).
Proof.
  intros [Hl Hb]. cbv zeta.
  split; [apply lut_length|].
  split; [apply leading_prefixes_take|].
  split; [intros b; apply run_groups|].
  split; [intros Hlt; apply leading_prefixes_stop; lia|].
  split; [apply analyze_prefixes_classify; exact Hl|].
  split; [intros g Hg; apply analysis_count; assumption|].
  split; [intros g Hg Hc; apply analysis_position; assumption|].
  intros raw' [Hl' _] Hrun.
  rewrite !analyze_prefixes_classify by assumption. rewrite Hrun. reflexivity.
Qed.

Lemma sample_bytes_wf : wf_bytes sample_bytes.
Proof.
  split; [reflexivity|].
  unfold sample_bytes. repeat (apply Forall_cons; split; [lia|]). apply Forall_nil. exact I.
Qed.

Lemma analyze_prefixes_scan_witness :
  wf_bytes sample_bytes
  /\ analyze_prefixes default_globals sample_bytes
     = classify (prefix_group_lut default_globals) [0x66; 0x67; 0x40] 0 prefix_state_init.
Proof.
  split; [exact sample_bytes_wf|].
  exact (proj1 (proj2 (proj2 (proj2 (proj2
    (analyze_prefixes_scan default_globals sample_bytes sample_bytes_wf)))))).
Defined.

(** ** Claims on accepted candidates *)

Lemma rejected_false G e st :
  rejected G e st = false ->
  total_prefix_bytes st <= max_prefixes_ e
  /\ has_duplicated_prefixes st = false
  /\ has_unused_prefixes G st = false
  /\ has_ordered_prefixes st = true.
Proof.
  unfold rejected. intros H.
  apply orb_false_iff in H as [H Hord].
  apply orb_false_iff in H as [H Hunused].
  apply orb_false_iff in H as [Htotal Hdup].
  apply negb_false_iff in Hord.
  repeat split; try assumption.
  destruct (Z.gtb_spec (total_prefix_bytes st) (max_prefixes_ e)); [discriminate|lia].
Qed.

(** What the tests give for an accepted candidate: at most [max_prefixes_]
    prefix bytes in total, fewer than two bytes in every prefix group, and a
    byte only in groups whose bit is set in the file-scope [used_prefixes],
    the set [has_unused_prefixes] reads. The member [used_prefixes_], the set
    given to the constructor, takes no part. *)
Lemma find_next_candidate_prefix_limits G fuel e e' :
  find_next_candidate G fuel e = Done (true, e') ->
  let st := analyze_prefixes G (current_ e') in
  max_prefixes_ e' = max_prefixes_ e
  /\ total_prefix_bytes st <= max_prefixes_ e
  /\ (forall g, 0 <= g < 5 -> at_ (count st) g < 2)
  /\ (forall g, 0 <= g < 5 -> at_ (count st) g <> 0 ->
        Z.land (used_prefixes G) (Z.shiftl 1 g) <> 0).
Proof.
  intros H. cbv zeta.
  apply find_next_candidate_accept in H as (Hrej & Hmax & _).
  apply rejected_false in Hrej as (Htotal & Hdup & Hunused & _).
  split; [exact Hmax|].
  split; [rewrite <- Hmax; exact Htotal|].
  split.
  - intros g _. apply has_duplicated_prefixes_false. exact Hdup.
  - intros g Hg Hc. eapply has_unused_prefixes_false; eassumption.
Qed.

(** C1, at the failing input. An engine constructed with one prefix
    allowed and the permitted set 0x04, the operand-size group alone, stands
    at [63 00 ...]; with the file-scope [used_prefixes] at 0xFF its call
    returns true on [64 00 ...], whose analysis has one prefix byte, the FS
    override of group 1, within the maximum and not duplicated, but outside
    the permitted set of the engine. With the file-scope [used_prefixes] at
    0x04 the same engine passes over 64 and 65 and returns [66 00 ...]: the
    file-scope set decides, the one of the engine does not. *)
Theorem find_next_candidate_accepts_unpermitted_group :
  let e := search_engine_new 1 0x04 0xFF (0x63 :: replicate 14 0) in
  let e' := set_current e (0x64 :: replicate 14 0) in
  let st := analyze_prefixes default_globals (current_ e') in
  used_prefixes_ e = 0x04
  /\ find_next_candidate default_globals 4 e = Done (true, e')
  /\ total_prefix_bytes st = 1 /\ max_prefixes_ e' = 1
  /\ count st = [0; 1; 0; 0; 0]
  /\ Z.land (used_prefixes_ e') (Z.shiftl 1 1) = 0
  /\ find_next_candidate (Globals 0xFF 0x04) 4 e
     = Done (true, set_current e (0x66 :: replicate 14 0)).
Proof. vm_compute. repeat split; reflexivity. Qed.

(** C2. Whenever [find_next_candidate] returns true, for every two prefix
    groups [i < j] that both have a byte in the candidate, the position
    recorded for each is the position of a byte of that group, and the
    position of group [i] is strictly before that of group [j]. *)
Theorem find_next_candidate_ordered G fuel e e' :
  wf_bytes (current_ e) ->
  find_next_candidate G fuel e = Done (true, e') ->
  let lut := prefix_group_lut G in
  let st := analyze_prefixes G (current_ e') in
  forall i j, 0 <= i -> i < j -> j < 5 ->
    at_ (count st) i <> 0 -> at_ (count st) j <> 0 ->
    at_ lut (at_ (current_ e') (at_ (position st) i)) = i
    /\ at_ lut (at_ (current_ e') (at_ (position st) j)) = j
    /\ at_ (position st) i < at_ (position st) j.
Proof.
  intros [Hl _] H. cbv zeta. intros i j Hi Hij Hj Hci Hcj.
  apply find_next_candidate_accept in H as (Hrej & _ & _ & _ & Hlen).
  rewrite Hl in Hlen.
  apply rejected_false in Hrej as (_ & _ & _ & Hord).
  pose proof (has_ordered_prefixes_true _ i j Hord Hi Hij Hj Hci Hcj) as Hle.
  destruct (analysis_position G (current_ e') i Hlen ltac:(lia) Hci)
    as (ki & Hpi & _ & Hgi & _).
  destruct (analysis_position G (current_ e') j Hlen ltac:(lia) Hcj)
    as (kj & Hpj & _ & Hgj & _).
  rewrite Hpi, Hpj in *.
  split; [exact Hgi|]. split; [exact Hgj|].
  destruct (Z.eq_dec (Z.of_nat ki) (Z.of_nat kj)) as [Heq|Hne]; [|lia].
  rewrite Heq in Hgi. lia.
Qed.

Lemma engine_at_66_66_wf : wf_bytes (current_ engine_at_66_66).
Proof.
  split; [reflexivity|]. simpl.
  repeat (apply Forall_cons; split; [lia|]). apply Forall_nil. exact I.
Qed.

Lemma find_next_candidate_ordered_witness :
  find_next_candidate default_globals 4 engine_at_66_66 = Done (true, engine_at_66_67)
  /\ at_ (position (analyze_prefixes default_globals (current_ engine_at_66_67))) 2
     < at_ (position (analyze_prefixes default_globals (current_ engine_at_66_67))) 3.
Proof.
  assert (find_next_candidate default_globals 4 engine_at_66_66
          = Done (true, engine_at_66_67)) as Hrun by (vm_compute; reflexivity).
  split; [exact Hrun|].
  apply (find_next_candidate_ordered default_globals 4 engine_at_66_66 engine_at_66_67
           engine_at_66_66_wf Hrun 2 3); vm_compute; congruence.
Defined.

(** ** Termination of a call *)

Lemma wf_store raw i v : wf_bytes raw -> 0 <= v < 256 -> wf_bytes (store raw i v).
Proof.
  intros [Hl Hb] Hv. split.
  - rewrite length_store. exact Hl.
  - unfold store. apply Forall_insert; assumption.
Qed.

Lemma wf_at raw i : wf_bytes raw -> 0 <= at_ raw i < 256.
Proof.
  intros [_ Hb]. unfold at_.
  destruct (raw !! Z.to_nat i) as [b|] eqn:E; simpl; [|lia].
  rewrite Forall_forall in Hb. apply Hb. eapply list_elem_of_lookup_2. exact E.
Qed.

Lemma uint8_range z : 0 <= uint8 z < 256.
Proof. unfold uint8. apply Z.mod_pos_bound. lia. Qed.

Lemma uint8_succ b :
  0 <= b < 256 ->
  (b = 255 /\ uint8 (b + 1) = 0) \/ (b < 255 /\ uint8 (b + 1) = b + 1).
Proof.
  intros Hb. unfold uint8. destruct (Z.eq_dec b 255) as [->|Hne].
  - left. split; reflexivity.
  - right. split; [lia|]. apply Z.mod_small. lia.
Qed.

Lemma find_next_candidate_returns G fuel : forall e,
  wf_bytes (current_ e) -> 0 <= increment_at_ e < 15 ->
  passes_left e <= Z.of_nat fuel ->
  exists b e', find_next_candidate G fuel e = Done (b, e')
               /\ wf_bytes (current_ e')
               /\ (b = true -> 0 <= increment_at_ e' <= increment_at_ e).
Proof.
  unfold passes_left.
  induction fuel as [|fuel IH]; intros e Hwf Hc Hm.
  - pose proof (wf_at _ (increment_at_ e) Hwf). lia.
  - simpl.
    destruct (Z.leb_spec 0 (increment_at_ e)); [|lia].
    destruct (Z.ltb_spec (increment_at_ e) raw_size); [|unfold raw_size in *; lia].
    simpl.
    pose proof (wf_at _ (increment_at_ e) Hwf) as Hb.
    pose proof (uint8_range (at_ (current_ e) (increment_at_ e) + 1)) as Hr.
    pose proof (wf_store _ (increment_at_ e) _ Hwf Hr) as Hwf'.
    destruct (uint8_succ _ Hb) as [[Hmax Hw]|[Hlt Hw]]; rewrite Hw.
    + simpl. destruct (Z.eqb_spec (increment_at_ e) 0) as [Hz|Hnz].
      * eexists _, _. split; [reflexivity|]. split; [simpl; rewrite <- Hw; exact Hwf'|].
        discriminate.
      * rewrite size_t_small by lia.
        edestruct (IH (set_increment_at
                         (set_current e (store (current_ e) (increment_at_ e) 0))
                         (increment_at_ e - 1))) as (b & e' & Hrun & Hwfe & Hcur).
        -- simpl. rewrite <- Hw. exact Hwf'.
        -- simpl. lia.
        -- simpl.
           assert (0 <= at_ (store (current_ e) (increment_at_ e) 0) (increment_at_ e - 1) < 256)
             as Hx by (apply wf_at; rewrite <- Hw; exact Hwf').
           lia.
        -- exists b, e'. split; [exact Hrun|]. split; [exact Hwfe|].
           intros Hbt. specialize (Hcur Hbt). simpl in Hcur. lia.
    + destruct (Z.eqb_spec (at_ (current_ e) (increment_at_ e) + 1) 0); [lia|].
      match goal with |- context [if ?c then _ else _] => destruct c end.
      * edestruct (IH (set_current e (store (current_ e) (increment_at_ e)
                                        (at_ (current_ e) (increment_at_ e) + 1))))
          as (b & e' & Hrun & Hwfe & Hcur).
        -- simpl. rewrite <- Hw. exact Hwf'.
        -- simpl. lia.
        -- simpl. rewrite at_store_eq by (destruct Hwf as [Hl15 _]; try rewrite Hl15; lia). lia.
        -- exists b, e'. split; [exact Hrun|]. split; [exact Hwfe|exact Hcur].
      * eexists _, _. split; [reflexivity|]. split; [simpl; rewrite <- Hw; exact Hwf'|].
        intros _. simpl. lia.
Qed.

(** Every call on an engine whose cursor is inside the buffer returns, in
    at most 3840 passes. *)
Lemma find_next_candidate_total G e :
  wf_bytes (current_ e) -> 0 <= increment_at_ e < 15 ->
  exists b e', find_next_candidate G 3840 e = Done (b, e').
Proof.
  intros Hwf Hc.
  destruct (find_next_candidate_returns G 3840 e Hwf Hc) as (b & e' & H & _).
  - unfold passes_left. pose proof (wf_at _ (increment_at_ e) Hwf). lia.
  - exists b, e'. exact H.
Qed.

(** ** Enumeration with the cursor on the first byte *)

Lemma find_next_candidate_first_byte G fuel : forall e,
  wf_bytes (current_ e) -> increment_at_ e = 0 ->
  256 - at_ (current_ e) 0 <= Z.of_nat fuel ->
  (exists e', find_next_candidate G fuel e = Done (false, e')
              /\ at_ (current_ e') 0 = 0 /\ increment_at_ e' = size_t (-1))
  \/ (exists e', find_next_candidate G fuel e = Done (true, e')
                 /\ wf_bytes (current_ e') /\ increment_at_ e' = 0
                 /\ at_ (current_ e) 0 < at_ (current_ e') 0).
Proof.
  induction fuel as [|fuel IH]; intros e Hwf Hc Hm.
  - pose proof (wf_at _ 0 Hwf). lia.
  - simpl. rewrite Hc. simpl.
    pose proof (wf_at _ 0 Hwf) as Hb.
    pose proof (uint8_range (at_ (current_ e) 0 + 1)) as Hr.
    pose proof (wf_store _ 0 _ Hwf Hr) as Hwf'.
    assert (0 < length (current_ e))%nat as Hlen by (destruct Hwf as [Hl15 _]; rewrite Hl15; lia).
    destruct (uint8_succ _ Hb) as [[Hmax Hw]|[Hlt Hw]]; rewrite Hw.
    + simpl. left. eexists. split; [reflexivity|]. simpl. split; [|reflexivity].
      apply at_store_eq; [lia|exact Hlen].
    + destruct (Z.eqb_spec (at_ (current_ e) 0 + 1) 0); [lia|].
      match goal with |- context [if ?c then _ else _] => destruct c end.
      * destruct (IH (set_current e (store (current_ e) 0 (at_ (current_ e) 0 + 1))))
          as [(e' & Hrun & Hz & Hcur)|(e' & Hrun & Hwfe & Hcur & Hup)].
        -- simpl. rewrite <- Hw. exact Hwf'.
        -- simpl. exact Hc.
        -- simpl. rewrite at_store_eq by (try exact Hlen; lia). lia.
        -- left. exists e'. auto.
        -- right. exists e'. split; [exact Hrun|]. split; [exact Hwfe|]. split; [exact Hcur|].
           simpl in Hup. rewrite at_store_eq in Hup by (try exact Hlen; lia). lia.
      * right. eexists. split; [reflexivity|]. simpl.
        split; [rewrite <- Hw; exact Hwf'|]. split; [exact Hc|].
        rewrite at_store_eq by (try exact Hlen; lia). lia.
Qed.

Lemma enumerate_first_byte G fuel calls :
  (256 <= fuel)%nat -> forall e,
  wf_bytes (current_ e) -> increment_at_ e = 0 ->
  256 - at_ (current_ e) 0 <= Z.of_nat calls ->
  exists n e', enumerate G fuel calls e = Done (n, e')
               /\ (n < calls)%nat
               /\ at_ (current_ e') 0 = 0 /\ increment_at_ e' = size_t (-1).
Proof.
  intros Hfuel.
  induction calls as [|calls IH]; intros e Hwf Hc Hm.
  - pose proof (wf_at _ 0 Hwf). lia.
  - cbn [enumerate].
    pose proof (wf_at _ 0 Hwf) as Hb.
    destruct (find_next_candidate_first_byte G fuel e Hwf Hc ltac:(lia))
      as [(e' & Hrun & Hz & Hcur)|(e' & Hrun & Hwfe & Hcur & Hup)]; rewrite Hrun.
    + exists 0%nat, e'. split; [reflexivity|]. split; [lia|]. split; assumption.
    + destruct (IH e' Hwfe Hcur ltac:(lia)) as (n & e'' & Hen & Hn & Hz & Hx).
      rewrite Hen. exists (S n), e''. split; [reflexivity|]. split; [lia|].
      split; assumption.
Qed.

Lemma default_engine_wf : wf_bytes (current_ default_engine).
Proof.
  split; [reflexivity|]. simpl. unfold instruction_bytes_zero.
  apply Forall_replicate. lia.
Qed.

(** C3. From the all-zero buffer and the default configuration, after
    [start_over 1], the calls of [find_next_candidate] return true at most
    255 times and the next call returns false, with the first byte wrapped
    to zero and the cursor moved below position zero; this holds whatever
    the file-scope prefix configuration is. With the default one the
    exhausting call is the 229th. *)
Theorem enumeration_terminates :
  (forall G, exists n e',
      enumerate G 256 256 (start_over 1 default_engine) = Done (n, e')
      /\ (n <= 255)%nat
      /\ at_ (current_ e') 0 = 0 /\ increment_at_ e' = size_t (-1))
  /\ enumerate default_globals 256 256 (start_over 1 default_engine)
     = Done (228%nat, set_increment_at default_engine 4294967295).
Proof.
  split.
  - intros G.
    destruct (enumerate_first_byte G 256 256 (le_n _) (start_over 1 default_engine))
      as (n & e' & Hen & Hn & Hz & Hc).
    + exact default_engine_wf.
    + reflexivity.
    + vm_compute. discriminate.
    + exists n, e'. split; [exact Hen|]. split; [lia|]. split; assumption.
  - vm_compute. reflexivity.
Qed.

(** ** [clear_after] *)

Lemma memset_zero_tail raw pos :
  length raw = 15%nat -> 0 <= pos < 15 ->
  memset_zero raw pos (raw_size - pos)
  = take (Z.to_nat pos) raw ++ replicate (Z.to_nat (15 - pos)) 0.
Proof.
  intros Hl Hp. unfold memset_zero, raw_size.
  replace (pos + (15 - pos)) with 15 by lia.
  rewrite drop_ge by (rewrite Hl; lia). rewrite app_nil_r. reflexivity.
Qed.

(** C6. [clear_after p] keeps the bytes at the indices below [p], leaves
    zero at every index from [p] to the end of the 15 bytes, and changes
    neither the cursor nor the configuration of the engine. *)
Theorem clear_after_frame pos e :
  wf_bytes (current_ e) -> 0 <= pos ->
  let e' := clear_after pos e in
  wf_bytes (current_ e')
  /\ (forall i, 0 <= i < pos -> at_ (current_ e') i = at_ (current_ e) i)
  /\ (forall i, pos <= i < 15 -> at_ (current_ e') i = 0)
  /\ increment_at_ e' = increment_at_ e
  /\ max_prefixes_ e' = max_prefixes_ e
  /\ used_prefixes_ e' = used_prefixes_ e
  /\ group_lut_ e' = group_lut_ e.
Proof.
  intros Hwf Hp. cbv zeta. unfold clear_after.
  destruct (Z.ltb_spec pos raw_size) as [Hlt|Hge]; unfold raw_size in *.
  - destruct Hwf as [Hl Hb]. simpl.
    rewrite memset_zero_tail by (try exact Hl; lia).
    split; [split|].
    + rewrite length_app, length_take, length_replicate, Hl. lia.
    + apply Forall_app. split.
      * apply Forall_take. exact Hb.
      * apply Forall_replicate. lia.
    + split; [|split].
      * intros i Hi. unfold at_.
        rewrite lookup_app_l by (rewrite length_take, Hl; lia).
        rewrite lookup_take_lt by lia. reflexivity.
      * intros i Hi. unfold at_.
        rewrite lookup_app_r by (rewrite length_take, Hl; lia).
        rewrite length_take, Hl.
        rewrite lookup_replicate_2 by lia. reflexivity.
      * repeat split; reflexivity.
  - split; [exact Hwf|]. split; [reflexivity|]. split; [lia|].
    repeat split; reflexivity.
Qed.

Lemma clear_after_frame_witness :
  wf_bytes sample_bytes
  /\ current_ (clear_after 2 (search_engine_new 0 0xFF 0xFF sample_bytes))
     = [0x66; 0x67; 0; 0; 0; 0; 0; 0; 0; 0; 0; 0; 0; 0; 0]
  /\ (forall i, 2 <= i < 15 ->
        at_ (current_ (clear_after 2 (search_engine_new 0 0xFF 0xFF sample_bytes))) i = 0).
Proof.
  split; [exact sample_bytes_wf|]. split; [reflexivity|].
  exact (proj1 (proj2 (proj2
    (clear_after_frame 2 (search_engine_new 0 0xFF 0xFF sample_bytes)
       sample_bytes_wf ltac:(lia))))).
Defined.

(** ** The table the scan consults *)

(** A call does not read [group_lut_] or [used_prefixes_]: replacing both
    changes the result only in those two members. *)
Lemma find_next_candidate_ignores_members G used lut fuel : forall e,
  find_next_candidate G fuel (with_config used lut e)
  = with_config_result used lut (find_next_candidate G fuel e).
Proof.
  induction fuel as [|fuel IH]; intros e; simpl; [reflexivity|].
  destruct ((0 <=? increment_at_ e) && (increment_at_ e <? raw_size)); [|reflexivity].
  destruct (uint8 (at_ (current_ e) (increment_at_ e) + 1) =? 0).
  - destruct (increment_at_ e =? 0); [reflexivity|]. rewrite <- IH. reflexivity.
  - unfold rejected. simpl.
    match goal with |- context [if ?c then _ else _] => destruct c end.
    + rewrite <- IH. reflexivity.
    + reflexivity.
Qed.

(** C7, at the failing input. An engine constructed with the detect bitmask
    0 holds a table that maps no byte to a prefix group; with the file-scope
    bitmask at 0xFF its call still classifies with the file-scope table: from
    the candidate [25 00 ...] it skips [26 00 ...], the ES prefix, and returns
    [27 00 ...], exactly as the engine constructed with the bitmask 0xFF
    does. *)
Theorem classification_uses_file_scope_table :
  let start := 0x25 :: replicate 14 0 in
  let none := search_engine_new 0 0xFF 0x00 start in
  let all := search_engine_new 0 0xFF 0xFF start in
  group_lut_ none = replicate 256 (-1)
  /\ at_ (group_lut_ all) 0x26 = 1
  /\ find_next_candidate default_globals 4 none
     = Done (true, set_current none (0x27 :: replicate 14 0))
  /\ find_next_candidate default_globals 4 all
     = Done (true, set_current all (0x27 :: replicate 14 0))
  /\ find_next_candidate (Globals 0 0xFF) 4 all
     = Done (true, set_current all (0x26 :: replicate 14 0)).
Proof. vm_compute. repeat split; reflexivity. Qed.

(** ** The cursor and the bounds of the buffer *)

Lemma find_next_candidate_cursor_outside G fuel e :
  ~ (0 <= increment_at_ e < 15) ->
  find_next_candidate G (S fuel) e = OutOfBounds (increment_at_ e).
Proof.
  intros H. simpl.
  destruct (Z.leb_spec 0 (increment_at_ e)); destruct (Z.ltb_spec (increment_at_ e) raw_size);
    unfold raw_size in *; simpl; try reflexivity; lia.
Qed.

Lemma find_next_candidate_exhausted_cursor G fuel : forall e e',
  find_next_candidate G fuel e = Done (false, e') -> increment_at_ e' = size_t (-1).
Proof.
  induction fuel as [|fuel IH]; intros e e' H; simpl in H; [discriminate|].
  destruct ((0 <=? increment_at_ e) && (increment_at_ e <? raw_size)); [|discriminate].
  destruct (uint8 (at_ (current_ e) (increment_at_ e) + 1) =? 0).
  - destruct (Z.eqb_spec (increment_at_ e) 0) as [Hz|Hnz].
    + injection H as <-. simpl. rewrite Hz. reflexivity.
    + apply IH in H. exact H.
  - match type of H with (if ?c then _ else _) = _ => destruct c end.
    + apply IH in H. exact H.
    + discriminate.
Qed.

(** After a call has reported exhaustion, the next call indexes the buffer
    at [SIZE_MAX]. *)
Lemma find_next_candidate_after_exhaustion G fuel fuel' e e' :
  find_next_candidate G fuel e = Done (false, e') ->
  find_next_candidate G (S fuel') e' = OutOfBounds 4294967295.
Proof.
  intros H. apply find_next_candidate_exhausted_cursor in H.
  rewrite find_next_candidate_cursor_outside; rewrite H.
  - reflexivity.
  - vm_compute. intros [_ Hc]. discriminate Hc.
Qed.

(** C9, at the failing inputs. After [start_over 0] the call indexes the
    15-byte buffer at 4294967295; after [start_over 16] it indexes it at 15;
    and the call after the one that reported exhaustion indexes it at
    4294967295. *)
Theorem find_next_candidate_leaves_buffer :
  find_next_candidate default_globals 1 (start_over 0 default_engine)
  = OutOfBounds 4294967295
  /\ find_next_candidate default_globals 1 (start_over 16 default_engine)
     = OutOfBounds 15
  /\ find_next_candidate default_globals 1
       (set_current (search_engine_new 0 0xFF 0xFF (0xFF :: replicate 14 0)) (0xFF :: replicate 14 0))
     = Done (false, set_increment_at default_engine 4294967295)
  /\ find_next_candidate default_globals 1 (set_increment_at default_engine 4294967295)
     = OutOfBounds 4294967295.
Proof. vm_compute. repeat split; reflexivity. Qed.

End SearchSpec.

(** * Properties of the x86_32 bootstrap and of the interrupt dispatch *)

Module ArchSpec.
Import Arch.

(** ** [setup_paging] and the alignment of the image *)

Lemma is_aligned_22 v m :
  is_aligned v 22 m = Ok (0 =? v mod 2 ^ 22) m.
Proof.
  unfold is_aligned, bind, assert_, ret.
  change (22 <? 64) with true. cbv iota.
  change (Z.shiftl 1 22 mod 2 ^ 64 - 1) with (Z.ones 22).
  rewrite Z.land_ones by lia. reflexivity.
Qed.

(** C8. When the image start is not a multiple of 4 MiB, [setup_paging]
    ends in the failed assertion on the alignment with the machine as it
    found it: nothing was stored, CR3 was not loaded and CR0 was not
    written, so the paging bit was not set. *)
Theorem setup_paging_misaligned_image P fuel m :
  image_start P mod 2 ^ 22 <> 0 ->
  setup_paging P fuel m
  = AssertFailed "Image needs to start on large page boundary" m
  /\ forall msg m', setup_paging P fuel m = AssertFailed msg m' ->
       cr0 m' = cr0 m /\ cr3 m' = cr3 m /\ stores m' = stores m.
Proof.
  intros Hmis.
  assert (setup_paging P fuel m
          = AssertFailed "Image needs to start on large page boundary" m) as Hfail.
  { unfold setup_paging. unfold bind at 1. rewrite is_aligned_22.
    destruct (Z.eqb_spec 0 (image_start P mod 2 ^ 22)) as [Heq|Hne]; [lia|].
    reflexivity. }
  split; [exact Hfail|].
  intros msg m' H. rewrite Hfail in H. injection H as _ <-. auto.
Qed.

Lemma setup_paging_misaligned_image_witness :
  image_start (i386_platform 0x400100 0x900000 false) mod 2 ^ 22 <> 0
  /\ setup_paging (i386_platform 0x400100 0x900000 false) 2000 reset_machine
     = AssertFailed "Image needs to start on large page boundary" reset_machine.
Proof.
  assert (image_start (i386_platform 0x400100 0x900000 false) mod 2 ^ 22 <> 0) as H
    by (vm_compute; discriminate).
  split; [exact H|].
  exact (proj1 (setup_paging_misaligned_image
                  (i386_platform 0x400100 0x900000 false) 2000 reset_machine H)).
Defined.

(** ** The fill of a second-level table *)

Lemma u32_small z : 0 <= z < 2 ^ 32 -> u32 z = z.
Proof. intros H. unfold u32. apply Z.mod_small. exact H. Qed.

(** A fill started at entry [d] stores entries [d] to 1024, both included,
    and the last store is the one at byte offset 4096 of the table. *)
Lemma fill_table_stores P t fuel : forall d c m,
  0 <= d <= 1024 -> 1026 - d <= Z.of_nat fuel ->
  exists m' v,
    fill_table P fuel t d c m = Ok tt m'
    /\ length (stores m') = (length (stores m) + Z.to_nat (1025 - d))%nat
    /\ head (stores m') = Some (Phys (u32 (t + 4096)), v)
    /\ cr0 m' = cr0 m /\ cr3 m' = cr3 m.
Proof.
  induction fuel as [|fuel IH]; intros d c m Hd Hfuel; [lia|].
  cbn [fill_table].
  destruct (Z.leb_spec d 1024) as [_|]; [|lia].
  unfold bind, update. rewrite (u32_small (d + 1)) by lia.
  destruct (Z.eq_dec d 1024) as [->|Hne].
  - destruct fuel as [|fuel]; [lia|]. cbn [fill_table]. simpl.
    eexists _, _. split; [reflexivity|]. simpl.
    split; [lia|]. split; [reflexivity|]. split; reflexivity.
  - destruct (IH (d + 1) (u32 (c + 4096))
                (write (Phys (u32 (t + 4 * d))) (Z.lor (Z.lor c (PTE_P P)) (PTE_W P)) m))
      as (m' & v & Hrun & Hlen & Hhead & Hcr0 & Hcr3); [lia|lia|].
    exists m', v. split; [exact Hrun|]. simpl in Hlen.
    split; [lia|]. split; [exact Hhead|]. split; assumption.
Qed.

(** C10, at the failing input. On a CPU without large pages and an image
    from 4 MiB to 9 MiB, the tables are at 0xD00000 and 0xD01000. The fill
    of the first table makes 1025 stores, the last at 0xD01000, the first
    entry of the second table; and of the stores of the whole setup one
    lies at 0xD02000, past the two tables. *)
Theorem fill_table_writes_entry_1024 :
  let P := i386_platform 0x400000 0x900000 false in
  let first_fill := fill_table P 1026 0xD00000 0 0x400000 reset_machine in
  page_tables_start P = 0xD00000
  /\ after first_fill (fun m => length (stores m)) = Some 1025%nat
  /\ after first_fill (fun m => head (stores m)) = Some (Some (Phys 0xD01000, 0x800003))
  /\ after (setup_paging P 2000 reset_machine) (phys_stores_at 0xD02000)
     = Some [(Phys 0xD02000, 0xC00003)].
Proof. cbv zeta. repeat split; vm_compute; reflexivity. Qed.

(** ** [irq_entry] *)

(** C4. For a frame from reduced privilege with a continuation pending and
    a capture slot supplied, [irq_entry] leaves by loading the saved stack
    pointer [tss.esp0] and jumping to the saved continuation, with the frame
    copied whole into the slot, the other frames untouched, and both the
    continuation and the capture pointer cleared. For a frame from the
    privileged context with no continuation pending it prints the report and
    halts, changing nothing else. It never leaves by returning. *)
Theorem irq_entry_dispatch ef k :
  (Z.land (cs ef) 3 <> 0 -> ring0_continuation k <> 0 -> ring3_exception_frame k <> 0 ->
   exists k',
     irq_entry ef k = Resumes (tss_esp0 k) (ring0_continuation k) k'
     /\ frames k' !! ring3_exception_frame k = Some ef
     /\ (forall p, p <> ring3_exception_frame k -> frames k' !! p = frames k !! p)
     /\ ring0_continuation k' = 0 /\ ring3_exception_frame k' = 0
     /\ tss_esp0 k' = tss_esp0 k /\ console k' = console k)
  /\ (Z.land (cs ef) 3 = 0 -> ring0_continuation k = 0 ->
      irq_entry ef k
      = Halts (Kernel (ring0_continuation k) (ring3_exception_frame k) (tss_esp0 k)
                      (frames k) (cr2 k) (console k ++ dead_report ef k)))
  /\ (forall k', irq_entry ef k <> Returns k').
Proof.
  split; [|split].
  - intros Hcs Hcont Hslot. unfold irq_entry.
    apply Z.eqb_neq in Hcs, Hcont. rewrite Hcs, Hcont. simpl.
    apply Z.eqb_neq in Hslot. rewrite Hslot. simpl.
    eexists. split; [reflexivity|]. simpl.
    split; [apply lookup_insert_eq|].
    split; [intros p Hp; apply lookup_insert_ne; congruence|].
    repeat split; reflexivity.
  - intros Hcs Hcont. unfold irq_entry.
    apply Z.eqb_eq in Hcs. rewrite Hcs. simpl.
    unfold print_exception, format, dead_report. simpl.
    rewrite <- !app_assoc. reflexivity.
  - intros k'. unfold irq_entry.
    destruct (negb (Z.land (cs ef) 3 =? 0) && negb (ring0_continuation k =? 0)); discriminate.
Qed.

Lemma irq_entry_dispatch_witness :
  Z.land (cs user_fault) 3 <> 0
  /\ ring0_continuation sandbox_pending <> 0
  /\ ring3_exception_frame sandbox_pending <> 0
  /\ exists k', irq_entry user_fault sandbox_pending = Resumes 0x80000 0x401234 k'
                /\ frames k' !! 0x7FF00 = Some user_fault
                /\ ring0_continuation k' = 0 /\ ring3_exception_frame k' = 0.
Proof.
  assert (Z.land (cs user_fault) 3 <> 0) as H1 by (vm_compute; discriminate).
  assert (ring0_continuation sandbox_pending <> 0) as H2 by (vm_compute; discriminate).
  assert (ring3_exception_frame sandbox_pending <> 0) as H3 by (vm_compute; discriminate).
  split; [exact H1|]. split; [exact H2|]. split; [exact H3|].
  destruct (proj1 (irq_entry_dispatch user_fault sandbox_pending) H1 H2 H3)
    as (k' & Hrun & Hslot & _ & Hcont & Hptr & _).
  exists k'. split; [exact Hrun|]. split; [exact Hslot|]. split; assumption.
Defined.

End ArchSpec.

(** * Further properties of the search engine *)

Module SearchExtra.
Import Search SearchSpec.

(** ** What a call does to the buffer *)

Lemma find_next_candidate_shape G fuel : forall e b e',
  wf_bytes (current_ e) -> 0 <= increment_at_ e < 15 ->
  find_next_candidate G fuel e = Done (b, e') ->
  wf_bytes (current_ e')
  /\ (forall i, increment_at_ e < i -> at_ (current_ e') i = at_ (current_ e) i)
  /\ (b = true ->
      0 <= increment_at_ e' <= increment_at_ e
      /\ (forall i, 0 <= i < increment_at_ e' -> at_ (current_ e') i = at_ (current_ e) i)
      /\ at_ (current_ e) (increment_at_ e') < at_ (current_ e') (increment_at_ e')
      /\ (forall i, increment_at_ e' < i <= increment_at_ e -> at_ (current_ e') i = 0))
  /\ (b = false ->
      increment_at_ e' = size_t (-1)
      /\ (forall i, 0 <= i <= increment_at_ e -> at_ (current_ e') i = 0)).
Proof.
  induction fuel as [|fuel IH]; intros e b e' Hwf Hc H; [discriminate|].
  simpl in H.
  destruct (Z.leb_spec 0 (increment_at_ e)); [|lia].
  destruct (Z.ltb_spec (increment_at_ e) raw_size); [|unfold raw_size in *; lia].
  simpl in H.
  pose proof (wf_at _ (increment_at_ e) Hwf) as Hb.
  pose proof (uint8_range (at_ (current_ e) (increment_at_ e) + 1)) as Hr.
  pose proof (wf_store _ (increment_at_ e) _ Hwf Hr) as Hwf'.
  assert (Z.to_nat (increment_at_ e) < length (current_ e))%nat as Hlen
    by (destruct Hwf as [Hl15 _]; rewrite Hl15; lia).
  destruct (uint8_succ _ Hb) as [[Hmax Hw]|[Hlt Hw]]; rewrite Hw in *.
  - simpl in H. destruct (Z.eqb_spec (increment_at_ e) 0) as [Hz|Hnz].
    + injection H as <- <-. simpl. split; [exact Hwf'|].
      split; [intros i Hi; apply at_store_ne; lia|].
      split; [discriminate|]. intros _. split; [rewrite Hz; reflexivity|].
      intros i Hi. replace i with (increment_at_ e) by lia.
      apply at_store_eq; [lia|exact Hlen].
    + rewrite size_t_small in H by lia.
      apply IH in H; [|exact Hwf'|simpl; lia]. simpl in H.
      destruct H as (Hwfe & Hright & Htrue & Hfalse).
      assert (at_ (current_ e') (increment_at_ e) = 0) as Hzero.
      { rewrite Hright by lia. apply at_store_eq; [lia|exact Hlen]. }
      split; [exact Hwfe|].
      split; [intros i Hi; rewrite Hright by lia; apply at_store_ne; lia|].
      split.
      * intros Hbt. destruct (Htrue Hbt) as (Hcur & Hleft & Hup & Hmid).
        split; [lia|].
        split; [intros i Hi; rewrite Hleft by lia; apply at_store_ne; lia|].
        split; [rewrite at_store_ne in Hup by lia; exact Hup|].
        intros i Hi. destruct (Z.eq_dec i (increment_at_ e)) as [->|Hne];
          [exact Hzero|apply Hmid; lia].
      * intros Hbf. destruct (Hfalse Hbf) as (Hcur & Hz).
        split; [exact Hcur|].
        intros i Hi. destruct (Z.eq_dec i (increment_at_ e)) as [->|Hne];
          [exact Hzero|apply Hz; lia].
  - destruct (Z.eqb_spec (at_ (current_ e) (increment_at_ e) + 1) 0); [lia|].
    match type of H with (if ?c then _ else _) = _ => destruct c end.
    + apply IH in H; [|exact Hwf'|simpl; lia]. simpl in H.
      destruct H as (Hwfe & Hright & Htrue & Hfalse).
      split; [exact Hwfe|].
      split; [intros i Hi; rewrite Hright by lia; apply at_store_ne; lia|].
      split.
      * intros Hbt. destruct (Htrue Hbt) as (Hcur & Hleft & Hup & Hmid).
        split; [lia|].
        split; [intros i Hi; rewrite Hleft by lia; apply at_store_ne; lia|].
        split; [|exact Hmid].
        destruct (Z.eq_dec (increment_at_ e') (increment_at_ e)) as [Heq|Hne].
        -- rewrite Heq in *. rewrite at_store_eq in Hup by (try exact Hlen; lia). lia.
        -- rewrite at_store_ne in Hup by lia. exact Hup.
      * intros Hbf. destruct (Hfalse Hbf) as (Hcur & Hz). split; assumption.
    + injection H as <- <-. simpl. split; [exact Hwf'|].
      split; [intros i Hi; apply at_store_ne; lia|].
      split; [|discriminate]. intros _.
      split; [lia|].
      split; [intros i Hi; apply at_store_ne; lia|].
      split; [rewrite at_store_eq by (try exact Hlen; lia); lia|].
      intros i Hi. lia.
Qed.

(** X1. A call that returns true leaves a buffer that is greater than the
    one it found, in the shape of a counter step: the cursor ends at some
    position [c'] at or left of where it was, the bytes left of [c'] are
    unchanged, the byte at [c'] is larger, the bytes from [c' + 1] to the old
    cursor are zero and the bytes right of the old cursor are unchanged. *)
Theorem find_next_candidate_accepts_greater G fuel e e' :
  wf_bytes (current_ e) -> 0 <= increment_at_ e < 15 ->
  find_next_candidate G fuel e = Done (true, e') ->
  0 <= increment_at_ e' <= increment_at_ e
  /\ (forall i, 0 <= i < increment_at_ e' -> at_ (current_ e') i = at_ (current_ e) i)
  /\ at_ (current_ e) (increment_at_ e') < at_ (current_ e') (increment_at_ e')
  /\ (forall i, increment_at_ e' < i <= increment_at_ e -> at_ (current_ e') i = 0)
  /\ (forall i, increment_at_ e < i -> at_ (current_ e') i = at_ (current_ e) i)
  /\ lex_lt (current_ e) (current_ e')
  /\ wf_bytes (current_ e').
Proof.
  intros Hwf Hc H.
  destruct (find_next_candidate_shape G fuel e true e' Hwf Hc H)
    as (Hwfe & Hright & Htrue & _).
  destruct (Htrue eq_refl) as (Hcur & Hleft & Hup & Hmid).
  split; [exact Hcur|]. split; [exact Hleft|]. split; [exact Hup|].
  split; [exact Hmid|]. split; [exact Hright|]. split; [|exact Hwfe].
  exists (increment_at_ e'). split; [lia|]. split.
  - intros i Hi. symmetry. apply Hleft. exact Hi.
  - exact Hup.
Qed.

Lemma find_next_candidate_accepts_greater_witness :
  wf_bytes (current_ engine_at_66_66)
  /\ find_next_candidate default_globals 4 engine_at_66_66 = Done (true, engine_at_66_67)
  /\ lex_lt (current_ engine_at_66_66) (current_ engine_at_66_67).
Proof.
  assert (find_next_candidate default_globals 4 engine_at_66_66
          = Done (true, engine_at_66_67)) as Hrun by (vm_compute; reflexivity).
  split; [exact engine_at_66_66_wf|]. split; [exact Hrun|].
  refine (proj1 (proj2 (proj2 (proj2 (proj2 (proj2
    (find_next_candidate_accepts_greater default_globals 4 engine_at_66_66
       engine_at_66_67 engine_at_66_66_wf _ Hrun))))))).
  vm_compute. split; [discriminate|reflexivity].
Defined.

(** X2. A call that returns false leaves zero in every byte from position 0
    to the cursor it started from, leaves the bytes right of that cursor
    unchanged, and leaves the cursor at [SIZE_MAX]. *)
Theorem find_next_candidate_exhausted_shape G fuel e e' :
  wf_bytes (current_ e) -> 0 <= increment_at_ e < 15 ->
  find_next_candidate G fuel e = Done (false, e') ->
  increment_at_ e' = 4294967295
  /\ (forall i, 0 <= i <= increment_at_ e -> at_ (current_ e') i = 0)
  /\ (forall i, increment_at_ e < i -> at_ (current_ e') i = at_ (current_ e) i)
  /\ wf_bytes (current_ e').
Proof.
  intros Hwf Hc H.
  destruct (find_next_candidate_shape G fuel e false e' Hwf Hc H)
    as (Hwfe & Hright & _ & Hfalse).
  destruct (Hfalse eq_refl) as (Hcur & Hz).
  split; [exact Hcur|]. split; [exact Hz|]. split; [exact Hright|exact Hwfe].
Qed.

Lemma engine_at_ff_ff_wf : wf_bytes (current_ engine_at_ff_ff).
Proof.
  split; [reflexivity|]. simpl.
  repeat (apply Forall_cons; split; [lia|]). apply Forall_nil. exact I.
Qed.

Lemma find_next_candidate_exhausted_shape_witness :
  wf_bytes (current_ engine_at_ff_ff)
  /\ find_next_candidate default_globals 4 engine_at_ff_ff
     = Done (false, SearchEngine (0 :: 0 :: 7 :: replicate 12 0) 4294967295 0 0xFF
                      (group_lut_ engine_at_ff_ff))
  /\ at_ (0 :: 0 :: 7 :: replicate 12 0) 2 = at_ (current_ engine_at_ff_ff) 2.
Proof.
  assert (find_next_candidate default_globals 4 engine_at_ff_ff
          = Done (false, SearchEngine (0 :: 0 :: 7 :: replicate 12 0) 4294967295 0 0xFF
                           (group_lut_ engine_at_ff_ff))) as Hrun
    by (vm_compute; reflexivity).
  split; [exact engine_at_ff_ff_wf|]. split; [exact Hrun|].
  refine (proj1 (proj2 (proj2
    (find_next_candidate_exhausted_shape default_globals 4 engine_at_ff_ff _
       engine_at_ff_ff_wf _ Hrun))) 2 _).
  - vm_compute. split; [discriminate|reflexivity].
  - vm_compute. reflexivity.
Defined.

(** ** Termination *)

Lemma find_next_candidate_more_fuel G fuel : forall e r k,
  find_next_candidate G fuel e = Done r ->
  find_next_candidate G (fuel + k) e = Done r.
Proof.
  induction fuel as [|fuel IH]; intros e r k H; [discriminate|].
  simpl in H. simpl.
  destruct ((0 <=? increment_at_ e) && (increment_at_ e <? raw_size)); [|discriminate].
  destruct (uint8 (at_ (current_ e) (increment_at_ e) + 1) =? 0).
  - destruct (increment_at_ e =? 0); [exact H|]. apply IH. exact H.
  - match type of H with (if ?c then _ else _) = _ => destruct c end.
    + apply IH. exact H.
    + exact H.
Qed.

(** X3. With the cursor inside the buffer a call always returns: it needs
    at most [256 * (cursor + 1)] passes through [again], never indexes the
    buffer outside its 15 bytes, and any larger budget of passes gives the
    same result. *)
Theorem find_next_candidate_terminates G e :
  wf_bytes (current_ e) -> 0 <= increment_at_ e < 15 ->
  exists b e',
    (0 < passes_left e <= 256 * (increment_at_ e + 1))
    /\ forall fuel, (Z.to_nat (passes_left e) <= fuel)%nat ->
                    find_next_candidate G fuel e = Done (b, e').
Proof.
  intros Hwf Hc.
  pose proof (wf_at _ (increment_at_ e) Hwf) as Hb.
  destruct (find_next_candidate_returns G (Z.to_nat (passes_left e)) e Hwf Hc)
    as (b & e' & Hrun & _).
  - unfold passes_left. lia.
  - exists b, e'. split; [unfold passes_left; lia|].
    intros fuel Hfuel.
    replace fuel with (Z.to_nat (passes_left e) + (fuel - Z.to_nat (passes_left e)))%nat by lia.
    apply find_next_candidate_more_fuel. exact Hrun.
Qed.

Lemma find_next_candidate_terminates_witness :
  wf_bytes (current_ engine_at_ff_ff)
  /\ exists b e', forall fuel, (257 <= fuel)%nat ->
       find_next_candidate default_globals fuel engine_at_ff_ff = Done (b, e').
Proof.
  split; [exact engine_at_ff_ff_wf|].
  destruct (find_next_candidate_terminates default_globals engine_at_ff_ff
              engine_at_ff_ff_wf) as (b & e' & _ & H).
  - vm_compute. split; [discriminate|reflexivity].
  - exists b, e'. exact H.
Defined.

(** ** Successive calls *)

Lemma lex_lt_trans a b c : lex_lt a b -> lex_lt b c -> lex_lt a c.
Proof.
  intros (k1 & Hk1 & He1 & Hl1) (k2 & Hk2 & He2 & Hl2).
  destruct (Z.lt_trichotomy k1 k2) as [Hlt|[Heq|Hgt]].
  - exists k1. split; [lia|]. split.
    + intros i Hi. rewrite He1 by lia. apply He2. lia.
    + rewrite <- He2 by lia. exact Hl1.
  - subst k2. exists k1. split; [lia|]. split.
    + intros i Hi. rewrite He1 by lia. apply He2. lia.
    + lia.
  - exists k2. split; [lia|]. split.
    + intros i Hi. rewrite He1 by lia. apply He2. lia.
    + rewrite He1 by lia. exact Hl2.
Qed.

Lemma lex_lt_irrefl a : ~ lex_lt a a.
Proof. intros (k & _ & _ & Hl). lia. Qed.

Lemma candidates_above G fuel calls : forall e,
  wf_bytes (current_ e) -> 0 <= increment_at_ e < 15 ->
  Forall (lex_lt (current_ e)) (candidates G fuel calls e).
Proof.
  induction calls as [|calls IH]; intros e Hwf Hc; cbn [candidates]; [constructor|].
  destruct (find_next_candidate G fuel e) as [[[|] e']| |] eqn:Hrun; try constructor.
  - destruct (find_next_candidate_shape G fuel e true e' Hwf Hc Hrun)
      as (_ & _ & Htrue & _).
    destruct (Htrue eq_refl) as (Hcur & Hleft & Hup & _).
    exists (increment_at_ e'). split; [lia|]. split; [|exact Hup].
    intros i Hi. symmetry. apply Hleft. exact Hi.
  - destruct (find_next_candidate_shape G fuel e true e' Hwf Hc Hrun)
      as (Hwfe & _ & Htrue & _).
    destruct (Htrue eq_refl) as (Hcur & Hleft & Hup & _).
    assert (lex_lt (current_ e) (current_ e')) as Hstep.
    { exists (increment_at_ e'). split; [lia|]. split; [|exact Hup].
      intros i Hi. symmetry. apply Hleft. exact Hi. }
    eapply Forall_impl; [apply IH; [exact Hwfe|lia]|].
    intros x Hx. exact (lex_lt_trans _ _ _ Hstep Hx).
Qed.

(** X4. The candidates that successive calls accept come in strictly
    increasing lexicographic order, each greater than the buffer the calls
    started from; no candidate is returned twice. *)
Theorem candidates_strictly_increasing G fuel calls : forall e,
  wf_bytes (current_ e) -> 0 <= increment_at_ e < 15 ->
  Forall (lex_lt (current_ e)) (candidates G fuel calls e)
  /\ forall (i j : nat) x y, (i < j)%nat ->
       candidates G fuel calls e !! i = Some x ->
       candidates G fuel calls e !! j = Some y ->
       lex_lt x y /\ x <> y.
Proof.
  induction calls as [|calls IH]; intros e Hwf Hc.
  - split; [constructor|]. intros i j x y _ H. discriminate H.
  - split; [apply candidates_above; assumption|].
    cbn [candidates].
    destruct (find_next_candidate G fuel e) as [[[|] e']| |] eqn:Hrun;
      try (intros i j x y _ H; discriminate H).
    destruct (find_next_candidate_shape G fuel e true e' Hwf Hc Hrun)
      as (Hwfe & _ & Htrue & _).
    destruct (Htrue eq_refl) as (Hcur & _).
    destruct (IH e' Hwfe ltac:(lia)) as (Habove & Hpairs).
    intros i j x y Hij Hi Hj.
    destruct j as [|j]; [lia|]. simpl in Hj.
    destruct i as [|i]; simpl in Hi.
    + injection Hi as <-.
      rewrite Forall_forall in Habove.
      assert (lex_lt (current_ e') y) as Hlt
        by (apply Habove; eapply list_elem_of_lookup_2; exact Hj).
      split; [exact Hlt|]. intros Heq. rewrite Heq in Hlt. exact (lex_lt_irrefl _ Hlt).
    + apply (Hpairs i j); [lia|exact Hi|exact Hj].
Qed.

Lemma candidates_strictly_increasing_witness :
  wf_bytes (current_ engine_at_65)
  /\ candidates operand_size_only 8 3 engine_at_65
     = [0x66 :: replicate 14 0; 0x68 :: replicate 14 0; 0x69 :: replicate 14 0]
  /\ lex_lt (0x66 :: replicate 14 0) (0x69 :: replicate 14 0).
Proof.
  assert (wf_bytes (current_ engine_at_65)) as Hwf.
  { split; [reflexivity|]. simpl.
    repeat (apply Forall_cons; split; [lia|]). apply Forall_nil. exact I. }
  split; [exact Hwf|]. split; [vm_compute; reflexivity|].
  refine (proj1 (proj2 (candidates_strictly_increasing operand_size_only 8 3
                          engine_at_65 Hwf _) 0%nat 2%nat _ _ _ _ _)).
  - vm_compute. split; [discriminate|reflexivity].
  - lia.
  - vm_compute. reflexivity.
  - vm_compute. reflexivity.
Defined.

(** ** The prefixes of an accepted candidate *)

Lemma filter_has_one (P : Z -> Prop) `{forall x, Decision (P x)} (l : list Z) (k : nat) b :
  l !! k = Some b -> P b -> (1 <= length (filter P l))%nat.
Proof.
  revert k. induction l as [|x l IH]; intros k Hk Hb; [discriminate|].
  rewrite filter_cons. destruct k as [|k]; simpl in Hk.
  - injection Hk as ->. destruct (decide (P b)); [simpl; lia|contradiction].
  - specialize (IH k Hk Hb). destruct (decide (P x)); simpl; lia.
Qed.

Lemma filter_has_two (P : Z -> Prop) `{forall x, Decision (P x)} (l : list Z)
    (k1 k2 : nat) b1 b2 :
  (k1 < k2)%nat -> l !! k1 = Some b1 -> l !! k2 = Some b2 -> P b1 -> P b2 ->
  (2 <= length (filter P l))%nat.
Proof.
  revert k1 k2. induction l as [|x l IH]; intros k1 k2 Hlt H1 H2 Hb1 Hb2; [discriminate|].
  rewrite filter_cons. destruct k2 as [|k2]; [lia|]. simpl in H2.
  destruct k1 as [|k1]; simpl in H1.
  - injection H1 as ->. destruct (decide (P b1)); [|contradiction].
    pose proof (filter_has_one P l k2 b2 H2 Hb2). simpl. lia.
  - assert (2 <= length (filter P l))%nat by (eapply (IH k1 k2); eauto; lia).
    destruct (decide (P x)); simpl; lia.
Qed.

Lemma run_lookup_raw lut raw (k : nat) :
  (k < length (leading_prefixes lut raw))%nat ->
  leading_prefixes lut raw !! k = Some (at_ raw (Z.of_nat k)).
Proof.
  intros Hk. destruct (lookup_lt_is_Some_2 _ _ Hk) as [b Hb].
  rewrite Hb. f_equal. symmetry. eapply run_lookup. exact Hb.
Qed.

(** In a buffer whose analysis has no duplicate, the only scanned byte of a
    group is at the position recorded for the group. *)
Lemma single_prefix_position G raw (k : nat) b :
  length raw = 15%nat ->
  has_duplicated_prefixes (analyze_prefixes G raw) = false ->
  leading_prefixes (prefix_group_lut G) raw !! k = Some b ->
  at_ (count (analyze_prefixes G raw)) (at_ (prefix_group_lut G) b) <> 0
  /\ at_ (position (analyze_prefixes G raw)) (at_ (prefix_group_lut G) b) = Z.of_nat k.
Proof.
  intros Hl Hdup Hk.
  set (lut := prefix_group_lut G) in *.
  set (g := at_ lut b).
  assert (0 <= g < 5) as Hg
    by (apply (run_groups G raw b); eapply list_elem_of_lookup_2; exact Hk).
  pose proof (analysis_count G raw g Hl Hg) as Hcnt. fold lut in Hcnt.
  pose proof (has_duplicated_prefixes_false _ g Hdup) as Hlt2.
  pose proof (filter_has_one (fun x => at_ lut x = g) _ k b Hk eq_refl) as Hone.
  assert (at_ (count (analyze_prefixes G raw)) g <> 0) as Hne
    by (rewrite Hcnt; unfold group_bytes; lia).
  split; [exact Hne|].
  destruct (analysis_position G raw g Hl Hg Hne) as (kg & Hp & Hkg & Hgk & _).
  fold lut in Hkg, Hgk. rewrite Hp. f_equal.
  destruct (Nat.lt_trichotomy kg k) as [Hlt|[Heq|Hgt]]; [|exact Heq|].
  - pose proof (filter_has_two (fun x => at_ lut x = g) _ kg k _ b Hlt
                  (run_lookup_raw lut raw kg Hkg) Hk Hgk eq_refl) as Htwo.
    unfold group_bytes in Hcnt. lia.
  - pose proof (filter_has_two (fun x => at_ lut x = g) _ k kg b _ Hgt
                  Hk (run_lookup_raw lut raw kg Hkg) eq_refl Hgk) as Htwo.
    unfold group_bytes in Hcnt. lia.
Qed.

(** X5. In a candidate that [find_next_candidate] accepted, the prefix
    bytes that lead the buffer come in strictly increasing order of group:
    of two scanned prefix bytes the earlier one has the smaller group id. So
    of all the orders of a set of prefixes only the one by group is ever
    returned. *)
Theorem accepted_prefixes_in_group_order G fuel e e' :
  wf_bytes (current_ e) ->
  find_next_candidate G fuel e = Done (true, e') ->
  forall (k k' : nat) b b', (k < k')%nat ->
    leading_prefixes (prefix_group_lut G) (current_ e') !! k = Some b ->
    leading_prefixes (prefix_group_lut G) (current_ e') !! k' = Some b' ->
    0 <= at_ (prefix_group_lut G) b < at_ (prefix_group_lut G) b' /\ at_ (prefix_group_lut G) b' < 5.
Proof.
  intros [Hl _] H k k' b b' Hkk Hk Hk'.
  apply find_next_candidate_accept in H as (Hrej & _ & _ & _ & Hlen).
  rewrite Hl in Hlen.
  apply rejected_false in Hrej as (_ & Hdup & _ & Hord).
  destruct (single_prefix_position G _ k b Hlen Hdup Hk) as (Hc & Hp).
  destruct (single_prefix_position G _ k' b' Hlen Hdup Hk') as (Hc' & Hp').
  assert (0 <= at_ (prefix_group_lut G) b < 5) as Hg
    by (apply (run_groups G (current_ e') b); eapply list_elem_of_lookup_2; exact Hk).
  assert (0 <= at_ (prefix_group_lut G) b' < 5) as Hg'
    by (apply (run_groups G (current_ e') b'); eapply list_elem_of_lookup_2; exact Hk').
  destruct (Z.lt_trichotomy (at_ (prefix_group_lut G) b) (at_ (prefix_group_lut G) b'))
    as [Hlt|[Heq|Hgt]].
  - lia.
  - rewrite Heq in Hp. rewrite Hp in Hp'. lia.
  - pose proof (has_ordered_prefixes_true _ (at_ (prefix_group_lut G) b')
                  (at_ (prefix_group_lut G) b) Hord ltac:(lia) Hgt ltac:(lia) Hc' Hc) as Hle.
    rewrite Hp, Hp' in Hle. lia.
Qed.

Lemma accepted_prefixes_in_group_order_witness :
  wf_bytes (current_ engine_at_66_66)
  /\ find_next_candidate default_globals 4 engine_at_66_66 = Done (true, engine_at_66_67)
  /\ 0 <= at_ (prefix_group_lut default_globals) 0x66
       < at_ (prefix_group_lut default_globals) 0x67.
Proof.
  assert (find_next_candidate default_globals 4 engine_at_66_66
          = Done (true, engine_at_66_67)) as Hrun by (vm_compute; reflexivity).
  split; [exact engine_at_66_66_wf|]. split; [exact Hrun|].
  refine (proj1 (accepted_prefixes_in_group_order default_globals 4 engine_at_66_66
                   engine_at_66_67 engine_at_66_66_wf Hrun 0%nat 1%nat 0x66 0x67 _ _ _)).
  - lia.
  - vm_compute. reflexivity.
  - vm_compute. reflexivity.
Defined.

(** X6. The number of prefix bytes that lead an accepted candidate is at
    most [max_prefixes_] and at most 5, one per group, whatever
    [max_prefixes_] is; with [max_prefixes_] at 0, the default, the first
    byte of an accepted candidate is not a prefix byte of the table. *)
Theorem accepted_prefix_run_bounds G fuel e e' :
  wf_bytes (current_ e) ->
  find_next_candidate G fuel e = Done (true, e') ->
  let run := leading_prefixes (prefix_group_lut G) (current_ e') in
  Z.of_nat (length run) <= max_prefixes_ e
  /\ (length run <= 5)%nat
  /\ (max_prefixes_ e = 0 -> at_ (prefix_group_lut G) (at_ (current_ e') 0) < 0).
Proof.
  intros [Hl _] H. cbv zeta.
  apply find_next_candidate_accept in H as (Hrej & Hmax & _ & _ & Hlen).
  rewrite Hl in Hlen.
  apply rejected_false in Hrej as (Htotal & Hdup & _ & _).
  rewrite total_prefix_bytes_scan in Htotal by exact Hlen.
  pose proof (group_bytes_partition (prefix_group_lut G)
                (leading_prefixes (prefix_group_lut G) (current_ e'))
                (fun b => run_groups G (current_ e') b)) as Hsum.
  assert (forall g, 0 <= g < 5 ->
            (length (group_bytes (prefix_group_lut G) g
                       (leading_prefixes (prefix_group_lut G) (current_ e'))) < 2)%nat) as Hlt2.
  { intros g Hg. pose proof (has_duplicated_prefixes_false _ g Hdup) as Hd.
    rewrite analysis_count in Hd by assumption. lia. }
  pose proof (Hlt2 0 ltac:(lia)). pose proof (Hlt2 1 ltac:(lia)).
  pose proof (Hlt2 2 ltac:(lia)). pose proof (Hlt2 3 ltac:(lia)).
  pose proof (Hlt2 4 ltac:(lia)).
  split; [lia|]. split; [lia|].
  intros Hzero.
  assert (length (leading_prefixes (prefix_group_lut G) (current_ e')) = 0%nat) as Hempty by lia.
  pose proof (leading_prefixes_stop (prefix_group_lut G) (current_ e')) as Hstop.
  rewrite Hempty in Hstop. apply Hstop. lia.
Qed.

Lemma accepted_prefix_run_bounds_witness :
  wf_bytes (current_ engine_at_66_66)
  /\ find_next_candidate default_globals 4 engine_at_66_66 = Done (true, engine_at_66_67)
  /\ Z.of_nat (length (leading_prefixes (prefix_group_lut default_globals)
                         (current_ engine_at_66_67))) <= 2.
Proof.
  assert (find_next_candidate default_globals 4 engine_at_66_66
          = Done (true, engine_at_66_67)) as Hrun by (vm_compute; reflexivity).
  split; [exact engine_at_66_66_wf|]. split; [exact Hrun|].
  exact (proj1 (accepted_prefix_run_bounds default_globals 4 engine_at_66_66
                  engine_at_66_67 engine_at_66_66_wf Hrun)).
Defined.

(** ** The analysis of any buffer *)

(** X7. For every buffer, [total_prefix_bytes] of its analysis is the
    number of prefix bytes that lead the buffer, between 0 and 15, and the
    count of each group is at most that total. *)
Theorem total_prefix_bytes_counts_scan G raw :
  wf_bytes raw ->
  let st := analyze_prefixes G raw in
  total_prefix_bytes st = Z.of_nat (length (leading_prefixes (prefix_group_lut G) raw))
  /\ 0 <= total_prefix_bytes st <= 15
  /\ forall g, 0 <= g < 5 -> 0 <= at_ (count st) g <= total_prefix_bytes st.
Proof.
  intros [Hl _]. cbv zeta.
  pose proof (total_prefix_bytes_scan G raw Hl) as Ht.
  pose proof (leading_prefixes_length (prefix_group_lut G) raw) as Hlen.
  split; [exact Ht|]. split; [lia|].
  intros g Hg. rewrite Ht, analysis_count by assumption.
  pose proof (length_filter (fun b => at_ (prefix_group_lut G) b = g)
                (leading_prefixes (prefix_group_lut G) raw)) as Hf.
  unfold group_bytes. lia.
Qed.

Lemma total_prefix_bytes_counts_scan_witness :
  wf_bytes sample_bytes
  /\ total_prefix_bytes (analyze_prefixes default_globals sample_bytes) = 3.
Proof.
  split; [exact sample_bytes_wf|].
  exact (proj1 (total_prefix_bytes_counts_scan default_globals sample_bytes sample_bytes_wf)).
Defined.

(** ** The table and the detect bitmask *)

Lemma opcode_to_prefix_group_detected d b :
  0 <= opcode_to_prefix_group d b ->
  bit_set d (opcode_to_prefix_group d b) = true
  /\ opcode_to_prefix_group d b = opcode_to_prefix_group 0xFF b.
Proof.
  unfold opcode_to_prefix_group.
  change (bit_set 255 0) with true. change (bit_set 255 1) with true.
  change (bit_set 255 2) with true. change (bit_set 255 3) with true.
  change (bit_set 255 4) with true. cbv iota.
  repeat match goal with
         | |- context [if bit_set d ?k then _ else _] => destruct (bit_set d k) eqn:?
         | |- context [if ?c then _ else _] => destruct c
         end; intros Hnn; try lia; split; try assumption; reflexivity.
Qed.

(** X8. The table built from a detect bitmask has 256 entries, each -1 or a
    group id from 0 to 4; a byte is given a group only when the bit of that
    group is set in the bitmask, and then it is the group the byte has with
    all five bits set: the bitmask can only turn groups off. *)
Theorem prefix_table_respects_mask d b :
  0 <= b < 256 ->
  let g := at_ (create_prefix_group_lut d) b in
  length (create_prefix_group_lut d) = 256%nat
  /\ -1 <= g < 5
  /\ (0 <= g -> Z.land d (Z.shiftl 1 g) <> 0
                /\ g = at_ (create_prefix_group_lut 0xFF) b)
  /\ (Z.land d 31 = 0 -> g = -1).
Proof.
  intros Hb. cbv zeta. rewrite !lut_at by exact Hb.
  split; [apply lut_length|].
  split; [apply opcode_to_prefix_group_range|].
  split.
  - intros Hg. destruct (opcode_to_prefix_group_detected d b Hg) as (Hbit & Hall).
    split; [|exact Hall].
    unfold bit_set in Hbit. apply negb_true_iff, Z.eqb_neq in Hbit. exact Hbit.
  - intros Hd.
    pose proof (opcode_to_prefix_group_range d b) as Hr.
    destruct (Z.eq_dec (opcode_to_prefix_group d b) (-1)) as [Heq|Hne]; [exact Heq|exfalso].
    destruct (opcode_to_prefix_group_detected d b ltac:(lia)) as (Hbit & _).
    unfold bit_set in Hbit. apply negb_true_iff, Z.eqb_neq in Hbit. apply Hbit.
    apply Z.bits_inj'. intros n Hn. rewrite Z.land_spec, Z.bits_0.
    destruct (Z.testbit (Z.shiftl 1 (opcode_to_prefix_group d b)) n) eqn:Hs;
      [|apply andb_false_r].
    rewrite andb_true_r.
    assert (Z.testbit (Z.land d 31) n = false) as Hz by (rewrite Hd; apply Z.bits_0).
    rewrite Z.land_spec in Hz.
    rewrite Z.shiftl_spec in Hs by lia.
    assert (n = opcode_to_prefix_group d b) as Hn'.
    { destruct (Z.eq_dec (n - opcode_to_prefix_group d b) 0) as [?|Hnz]; [lia|].
      change 1 with (Z.ones 1) in Hs. rewrite Z.testbit_ones in Hs by lia.
      apply andb_true_iff in Hs as [H1 H2]. apply Z.leb_le in H1. apply Z.ltb_lt in H2. lia. }
    assert (Z.testbit 31 n = true) as H31.
    { change 31 with (Z.ones 5). rewrite Z.testbit_ones by lia.
      apply andb_true_iff. split; [apply Z.leb_le|apply Z.ltb_lt]; lia. }
    rewrite H31, andb_true_r in Hz. exact Hz.
Qed.

Lemma prefix_table_respects_mask_witness :
  0 <= 0x66 < 256
  /\ at_ (create_prefix_group_lut 0x04) 0x66 = 2
  /\ Z.land 0x04 (Z.shiftl 1 (at_ (create_prefix_group_lut 0x04) 0x66)) <> 0.
Proof.
  assert (0 <= 0x66 < 256) as Hb by lia.
  split; [exact Hb|]. split; [reflexivity|].
  refine (proj1 (proj1 (proj2 (proj2 (prefix_table_respects_mask 0x04 0x66 Hb))) _)).
  vm_compute. discriminate.
Defined.

(** ** [clear_after] and [start_over] with the other operations *)

Lemma at_ext (a b : list Z) :
  length a = length b ->
  (forall i : nat, (i < length a)%nat -> at_ a (Z.of_nat i) = at_ b (Z.of_nat i)) ->
  a = b.
Proof.
  intros Hl H. apply list_eq. intros i.
  destruct (lt_dec i (length a)) as [Hi|Hi].
  - specialize (H i Hi). unfold at_ in H. rewrite !Nat2Z.id in H.
    destruct (lookup_lt_is_Some_2 a i Hi) as [x Hx].
    destruct (lookup_lt_is_Some_2 b i ltac:(lia)) as [y Hy].
    rewrite Hx, Hy in *. simpl in H. congruence.
  - rewrite !lookup_ge_None_2 by lia. reflexivity.
Qed.

Lemma clear_after_at pos e (i : nat) :
  length (current_ e) = 15%nat -> 0 <= pos -> (i < 15)%nat ->
  length (current_ (clear_after pos e)) = 15%nat
  /\ at_ (current_ (clear_after pos e)) (Z.of_nat i)
     = if Z.of_nat i <? pos then at_ (current_ e) (Z.of_nat i) else 0.
Proof.
  intros Hl Hp Hi. unfold clear_after.
  destruct (Z.ltb_spec pos raw_size) as [Hlt|Hge]; unfold raw_size in *.
  - simpl. rewrite memset_zero_tail by (try exact Hl; lia).
    split; [rewrite length_app, length_take, length_replicate, Hl; lia|].
    unfold at_. rewrite Nat2Z.id.
    destruct (Z.ltb_spec (Z.of_nat i) pos).
    + rewrite lookup_app_l by (rewrite length_take, Hl; lia).
      rewrite lookup_take_lt by lia. reflexivity.
    + rewrite lookup_app_r by (rewrite length_take, Hl; lia).
      rewrite length_take, Hl. rewrite lookup_replicate_2 by lia. reflexivity.
  - split; [exact Hl|]. destruct (Z.ltb_spec (Z.of_nat i) pos); [reflexivity|lia].
Qed.

Lemma clear_after_members pos e :
  increment_at_ (clear_after pos e) = increment_at_ e
  /\ max_prefixes_ (clear_after pos e) = max_prefixes_ e
  /\ used_prefixes_ (clear_after pos e) = used_prefixes_ e
  /\ group_lut_ (clear_after pos e) = group_lut_ e.
Proof. unfold clear_after. destruct (pos <? raw_size); repeat split; reflexivity. Qed.

(** X9. Two calls of [clear_after] amount to one call at the smaller
    position; in particular a second call at the same or a later position
    changes nothing. *)
Theorem clear_after_twice p q e :
  wf_bytes (current_ e) -> 0 <= p -> 0 <= q ->
  clear_after p (clear_after q e) = clear_after (Z.min p q) e.
Proof.
  intros [Hl _] Hp Hq.
  assert (current_ (clear_after p (clear_after q e)) = current_ (clear_after (Z.min p q) e)) as Hcur.
  { pose proof (fun i Hi => clear_after_at q e i Hl Hq Hi) as H1.
    assert (length (current_ (clear_after q e)) = 15%nat) as Hl1 by (apply (H1 0%nat); lia).
    pose proof (fun i Hi => clear_after_at p (clear_after q e) i Hl1 Hp Hi) as H2.
    pose proof (fun i Hi => clear_after_at (Z.min p q) e i Hl ltac:(lia) Hi) as H3.
    apply at_ext.
    - rewrite (proj1 (H2 0%nat ltac:(lia))), (proj1 (H3 0%nat ltac:(lia))). reflexivity.
    - rewrite (proj1 (H2 0%nat ltac:(lia))). intros i Hi.
      rewrite (proj2 (H2 i Hi)), (proj2 (H3 i Hi)), (proj2 (H1 i Hi)).
      destruct (Z.ltb_spec (Z.of_nat i) p); destruct (Z.ltb_spec (Z.of_nat i) q);
        destruct (Z.ltb_spec (Z.of_nat i) (Z.min p q)); try reflexivity; lia. }
  destruct (clear_after_members p (clear_after q e)) as (A1 & A2 & A3 & A4).
  destruct (clear_after_members q e) as (B1 & B2 & B3 & B4).
  destruct (clear_after_members (Z.min p q) e) as (C1 & C2 & C3 & C4).
  destruct (clear_after p (clear_after q e)) as [c1 i1 m1 u1 l1].
  destruct (clear_after (Z.min p q) e) as [c2 i2 m2 u2 l2].
  simpl in *. congruence.
Qed.

Lemma clear_after_twice_witness :
  wf_bytes sample_bytes
  /\ current_ (clear_after 4 (clear_after 2 (search_engine_new 0 0xFF 0xFF sample_bytes)))
     = [0x66; 0x67; 0; 0; 0; 0; 0; 0; 0; 0; 0; 0; 0; 0; 0].
Proof.
  split; [exact sample_bytes_wf|].
  rewrite (clear_after_twice 4 2 (search_engine_new 0 0xFF 0xFF sample_bytes)
             sample_bytes_wf ltac:(lia) ltac:(lia)).
  reflexivity.
Defined.

(** X10. After [start_over L] with [L] from 1 to 15, a call of
    [find_next_candidate] that returns leaves every byte from position [L]
    on as it was, and when it returns true the cursor is at most [L - 1]:
    only the first [L] bytes are varied. *)
Theorem start_over_then_find_next G fuel L e b e' :
  wf_bytes (current_ e) -> 1 <= L <= 15 ->
  find_next_candidate G fuel (start_over L e) = Done (b, e') ->
  increment_at_ (start_over L e) = L - 1
  /\ (forall i, L <= i -> at_ (current_ e') i = at_ (current_ e) i)
  /\ (b = true -> 0 <= increment_at_ e' <= L - 1)
  /\ (b = false -> forall i, 0 <= i < L -> at_ (current_ e') i = 0).
Proof.
  intros Hwf HL H.
  assert (increment_at_ (start_over L e) = L - 1) as Hcur
    by (simpl; apply size_t_small; lia).
  destruct (find_next_candidate_shape G fuel (start_over L e) b e') as (_ & Hright & Htrue & Hfalse).
  - exact Hwf.
  - rewrite Hcur. lia.
  - exact H.
  - rewrite Hcur in *. simpl in Hright.
    split; [reflexivity|]. split; [intros i Hi; apply Hright; lia|].
    split.
    + intros Hb. destruct (Htrue Hb) as (Hc & _). exact Hc.
    + intros Hb i Hi. destruct (Hfalse Hb) as (_ & Hz). apply Hz. lia.
Qed.

Lemma start_over_then_find_next_witness :
  wf_bytes (current_ engine_at_66_66)
  /\ find_next_candidate default_globals 4 (start_over 2 engine_at_66_66)
     = Done (true, engine_at_66_67)
  /\ at_ (current_ engine_at_66_67) 2 = at_ (current_ engine_at_66_66) 2.
Proof.
  assert (find_next_candidate default_globals 4 (start_over 2 engine_at_66_66)
          = Done (true, engine_at_66_67)) as Hrun by (vm_compute; reflexivity).
  split; [exact engine_at_66_66_wf|]. split; [exact Hrun|].
  refine (proj1 (proj2 (start_over_then_find_next default_globals 4 2 engine_at_66_66
                          true engine_at_66_67 engine_at_66_66_wf _ Hrun)) 2 _); lia.
Defined.

(** ** The members the calls do not read *)

(** X24. The results of [find_next_candidate] do not depend on the
    permitted and detect bitmasks the engine was constructed with: two engines
    constructed from the same maximum and start with different bitmasks
    return the same flag and leave the same buffer and cursor, call after
    call. Only the file-scope [used_prefixes] and [detect_prefixes] and the
    member [max_prefixes_] decide. *)
Theorem find_next_candidate_ignores_constructor_masks G fuel max used1 detect1 used2 detect2 start :
  find_next_candidate G fuel (search_engine_new max used2 detect2 start)
  = with_config_result used2 (prefix_group_lut_new detect2)
      (find_next_candidate G fuel (search_engine_new max used1 detect1 start))
  /\ forall calls,
       candidates G fuel calls (search_engine_new max used2 detect2 start)
       = candidates G fuel calls (search_engine_new max used1 detect1 start).
Proof.
  split.
  - apply (find_next_candidate_ignores_members G used2 (prefix_group_lut_new detect2) fuel
             (search_engine_new max used1 detect1 start)).
  - intros calls.
    change (search_engine_new max used2 detect2 start)
      with (with_config used2 (prefix_group_lut_new detect2)
              (search_engine_new max used1 detect1 start)).
    generalize (search_engine_new max used1 detect1 start).
    induction calls as [|calls IH]; intros e; cbn [candidates]; [reflexivity|].
    rewrite find_next_candidate_ignores_members.
    destruct (find_next_candidate G fuel e) as [[[|] e']| |]; simpl; try reflexivity.
    f_equal. apply IH.
Qed.

End SearchExtra.

(** * Further properties of the paging setup and of the interrupt dispatch *)

Module ArchExtra.
Import Arch ArchSpec.

(** ** Stores and reads *)

Lemma cell_eqb_eq a b : cell_eqb a b = true <-> a = b.
Proof.
  destruct a, b; simpl; try (split; [discriminate|intros H; discriminate H]);
    rewrite Z.eqb_eq; split; congruence.
Qed.

Lemma read_write_eq c v m : read c (write c v m) = Some v.
Proof.
  unfold read. simpl. rewrite (proj2 (cell_eqb_eq c c) eq_refl). reflexivity.
Qed.

Lemma read_write_ne c c' v m : c <> c' -> read c (write c' v m) = read c m.
Proof.
  intros Hne. unfold read. simpl.
  destruct (cell_eqb c c') eqn:E; [|reflexivity].
  apply cell_eqb_eq in E. contradiction.
Qed.

Lemma u32_range z : 0 <= u32 z < 2 ^ 32.
Proof. unfold u32. apply Z.mod_pos_bound. lia. Qed.

Lemma u32_add_l a b : u32 (u32 a + b) = u32 (a + b).
Proof. unfold u32. apply Zplus_mod_idemp_l. Qed.

(** ** The fill of one table *)

Lemma fill_table_run P t :
  0 <= t -> t + 4096 < 2 ^ 32 ->
  forall (r : nat) fuel d cm m,
    (r < fuel)%nat -> d = 1025 - Z.of_nat r -> 0 <= d -> 0 <= cm < 2 ^ 32 ->
    exists m',
      fill_table P fuel t d cm m = Ok tt m'
      /\ cr0 m' = cr0 m /\ cr3 m' = cr3 m /\ cr4 m' = cr4 m
      /\ (forall j, d <= j <= 1024 ->
            read (Phys (t + 4 * j)) m'
            = Some (Z.lor (Z.lor (u32 (cm + 4096 * (j - d))) (PTE_P P)) (PTE_W P)))
      /\ (forall c, (forall j, d <= j <= 1024 -> c <> Phys (t + 4 * j)) ->
            read c m' = read c m).
Proof.
  intros Ht Htop.
  induction r as [|r IH]; intros fuel d cm m Hfuel Hd Hd0 Hcm.
  - destruct fuel as [|fuel]; [lia|]. cbn [fill_table].
    destruct (Z.leb_spec d 1024); [lia|].
    exists m. split; [reflexivity|]. repeat split; try reflexivity; intros; lia.
  - destruct fuel as [|fuel]; [lia|]. cbn [fill_table].
    destruct (Z.leb_spec d 1024); [|lia].
    unfold bind at 1. unfold update at 1.
    rewrite (u32_small (d + 1)) by lia. rewrite (u32_small (t + 4 * d)) by lia.
    destruct (IH fuel (d + 1) (u32 (cm + 4096))
                (write (Phys (t + 4 * d)) (Z.lor (Z.lor cm (PTE_P P)) (PTE_W P)) m))
      as (m' & Hrun & H0 & H3 & H4 & Hread & Hframe);
      [lia|lia|lia|apply u32_range|].
    exists m'. split; [exact Hrun|].
    split; [exact H0|]. split; [exact H3|]. split; [exact H4|].
    split.
    + intros j Hj. destruct (Z.eq_dec j d) as [->|Hne].
      * rewrite Hframe by (intros j' Hj' Heq; injection Heq; lia).
        rewrite read_write_eq. replace (cm + 4096 * (d - d)) with cm by lia.
        rewrite u32_small by exact Hcm. reflexivity.
      * rewrite Hread by lia. rewrite u32_add_l.
        replace (cm + 4096 + 4096 * (j - (d + 1))) with (cm + 4096 * (j - d)) by lia.
        reflexivity.
    + intros c Hc. rewrite Hframe by (intros j' Hj'; apply Hc; lia).
      apply read_write_ne. apply Hc. lia.
Qed.

(** ** The loops over the image *)

Lemma shiftr_22_step c : 0 <= c -> Z.shiftr (c + 4194304) 22 = Z.shiftr c 22 + 1.
Proof.
  intros Hc. rewrite !Z.shiftr_div_pow2 by lia.
  change 4194304 with (1 * 2 ^ 22). rewrite Z.div_add by lia. reflexivity.
Qed.

Lemma map_image_run P :
  forall (n : nat) fuel c tp m,
    (n < fuel)%nat -> 0 <= c -> c + 4194304 * Z.of_nat n < 2 ^ 32 ->
    c + 4194304 * Z.of_nat n <= image_end P + 4194304 ->
    image_end P < c + 4194304 * Z.of_nat n ->
    exists m',
      map_image P fuel c tp m = Ok tt m'
      /\ cr0 m' = cr0 m /\ cr3 m' = cr3 m /\ cr4 m' = cr4 m
      /\ (forall k, 0 <= k < Z.of_nat n ->
            read (Pdt (Z.shiftr c 22 + k)) m'
            = Some (Z.lor (Z.lor (PTE_P P) (PTE_W P))
                      (if has_pse P then Z.lor (c + 4194304 * k) (PTE_PS P)
                       else if k =? 0 then tp else u32 (tp + 4096 * k))))
      /\ (forall x, (forall k, 0 <= k < Z.of_nat n -> x <> Pdt (Z.shiftr c 22 + k)) ->
            read x m' = read x m).
Proof.
  induction n as [|n IH]; intros fuel c tp m Hfuel Hc Htop Hlast Hend.
  - destruct fuel as [|fuel]; [lia|]. cbn [map_image].
    destruct (Z.leb_spec c (image_end P)); [lia|].
    exists m. split; [reflexivity|]. repeat split; try reflexivity; intros; lia.
  - destruct fuel as [|fuel]; [lia|]. cbn [map_image].
    destruct (Z.leb_spec c (image_end P)); [|lia].
    unfold bind at 1. unfold update at 1.
    change (Z.shiftl 1 22) with 4194304. change (Z.shiftl 1 12) with 4096.
    rewrite (u32_small (c + 4194304)) by lia.
    match goal with |- context [map_image P fuel _ ?tp' ?m1] =>
      destruct (IH fuel (c + 4194304) tp' m1)
        as (m' & Hrun & H0 & H3 & H4 & Hread & Hframe); [lia|lia|lia|lia|lia|]
    end.
    exists m'. split; [exact Hrun|].
    split; [exact H0|]. split; [exact H3|]. split; [exact H4|].
    rewrite shiftr_22_step in Hread, Hframe by exact Hc.
    split.
    + intros k Hk. destruct (Z.eq_dec k 0) as [->|Hne].
      * rewrite Hframe by (intros k' Hk' Heq; injection Heq; lia).
        rewrite Z.add_0_r, read_write_eq. simpl.
        replace (c + 4194304 * 0) with c by lia. reflexivity.
      * replace (Z.shiftr c 22 + k) with (Z.shiftr c 22 + 1 + (k - 1)) by lia.
        rewrite Hread by lia.
        replace (c + 4194304 + 4194304 * (k - 1)) with (c + 4194304 * k) by lia.
        destruct (has_pse P); [reflexivity|].
        destruct (Z.eqb_spec k 0); [lia|].
        destruct (Z.eqb_spec (k - 1) 0) as [Hk1|Hk1].
        -- replace k with 1 by lia. reflexivity.
        -- rewrite u32_add_l. do 3 f_equal. lia.
    + intros x Hx.
      rewrite Hframe.
      * apply read_write_ne. specialize (Hx 0 ltac:(lia)). rewrite Z.add_0_r in Hx. exact Hx.
      * intros k Hk. replace (Z.shiftr c 22 + 1 + k) with (Z.shiftr c 22 + (k + 1)) by lia.
        apply Hx. lia.
Qed.

Lemma map_tables_run P :
  forall (n : nat) fuel c tp m,
    (n + 1026 < fuel)%nat -> 0 <= c -> c + 4194304 * Z.of_nat n < 2 ^ 32 ->
    c + 4194304 * Z.of_nat n <= image_end P + 4194304 ->
    image_end P < c + 4194304 * Z.of_nat n ->
    0 <= tp -> tp + 4096 * Z.of_nat n < 2 ^ 32 ->
    exists m',
      map_tables P fuel c tp m = Ok tt m'
      /\ cr0 m' = cr0 m /\ cr3 m' = cr3 m /\ cr4 m' = cr4 m
      /\ (forall k j, 0 <= k < Z.of_nat n -> 0 <= j < 1024 ->
            read (Phys (tp + 4096 * k + 4 * j)) m'
            = Some (Z.lor (Z.lor (c + 4194304 * k + 4096 * j) (PTE_P P)) (PTE_W P)))
      /\ (forall x, (forall a, x = Phys a -> ~ (tp <= a <= tp + 4096 * Z.of_nat n)) ->
            read x m' = read x m).
Proof.
  induction n as [|n IH]; intros fuel c tp m Hfuel Hc Htop Hlast Hend Htp Htptop.
  - destruct fuel as [|fuel]; [lia|]. cbn [map_tables].
    destruct (Z.leb_spec c (image_end P)); [lia|].
    exists m. split; [reflexivity|]. repeat split; try reflexivity; intros; lia.
  - destruct fuel as [|fuel]; [lia|]. cbn [map_tables].
    destruct (Z.leb_spec c (image_end P)); [|lia].
    destruct (fill_table_run P tp Htp ltac:(lia) 1025%nat fuel 0 c m)
      as (m1 & Hfill & F0 & F3 & F4 & Fread & Fframe); [lia|lia|lia|lia|].
    unfold bind at 1. rewrite Hfill.
    change (Z.shiftl 1 22) with 4194304.
    rewrite (u32_small (c + 4194304)) by lia.
    rewrite (u32_small (tp + 4096)) by lia.
    destruct (IH fuel (c + 4194304) (tp + 4096) m1)
      as (m' & Hrun & H0 & H3 & H4 & Hread & Hframe); [lia|lia|lia|lia|lia|lia|lia|].
    exists m'. split; [exact Hrun|].
    split; [congruence|]. split; [congruence|]. split; [congruence|].
    split.
    + intros k j Hk Hj. destruct (Z.eq_dec k 0) as [->|Hne].
      * rewrite Hframe by (intros a Ha; injection Ha as <-; lia).
        replace (tp + 4096 * 0 + 4 * j) with (tp + 4 * j) by lia.
        rewrite Fread by lia. rewrite u32_small by lia.
        do 3 f_equal. lia.
      * replace (tp + 4096 * k + 4 * j) with (tp + 4096 + 4096 * (k - 1) + 4 * j) by lia.
        rewrite Hread by lia. do 3 f_equal. lia.
    + intros x Hx. rewrite Hframe.
      * apply Fframe. intros j Hj Heq. apply (Hx _ Heq). lia.
      * intros a Ha Hin. apply (Hx _ Ha). lia.
Qed.

(** ** What no run of the loops does *)

Lemma map_image_keeps P fuel : forall c tp m,
  keeps_control_registers m (map_image P fuel c tp m).
Proof.
  induction fuel as [|fuel IH]; intros c tp m; cbn [map_image]; [exact I|].
  destruct (c <=? image_end P); [|simpl; auto].
  unfold bind at 1. unfold update at 1.
  match goal with |- context [map_image P fuel ?c' ?tp' ?m1] =>
    specialize (IH c' tp' m1); destruct (map_image P fuel c' tp' m1) end;
    simpl in *; auto.
Qed.

Lemma fill_table_keeps P fuel : forall t d cm m,
  keeps_control_registers m (fill_table P fuel t d cm m).
Proof.
  induction fuel as [|fuel IH]; intros t d cm m; cbn [fill_table]; [exact I|].
  destruct (d <=? 1024); [|simpl; auto].
  unfold bind at 1. unfold update at 1.
  match goal with |- context [fill_table P fuel ?t' ?d' ?c' ?m1] =>
    specialize (IH t' d' c' m1); destruct (fill_table P fuel t' d' c' m1) end;
    simpl in *; auto.
Qed.

Lemma map_tables_keeps P fuel : forall c tp m,
  keeps_control_registers m (map_tables P fuel c tp m).
Proof.
  induction fuel as [|fuel IH]; intros c tp m; cbn [map_tables]; [exact I|].
  destruct (c <=? image_end P); [|simpl; auto].
  unfold bind at 1.
  pose proof (fill_table_keeps P fuel tp 0 c m) as Hfill.
  destruct (fill_table P fuel tp 0 c m) as [[] m1| |]; simpl in Hfill; try contradiction; [|exact I].
  match goal with |- context [map_tables P fuel ?c' ?tp' m1] =>
    specialize (IH c' tp' m1); destruct (map_tables P fuel c' tp' m1) end;
    simpl in *; try contradiction; try exact I.
  destruct Hfill as (A & B & C), IH as (A' & B' & C'). repeat split; congruence.
Qed.

(** X13. However [setup_paging] fails, it fails before it touches a control
    register: at a failed assertion CR0, CR3 and CR4 hold what they held on
    entry, so paging is not switched on and no feature bit is set; and the
    only assertions that fail are its own two. *)
Theorem setup_paging_fails_before_control_registers P fuel m msg m' :
  setup_paging P fuel m = AssertFailed msg m' ->
  cr0 m' = cr0 m /\ cr3 m' = cr3 m /\ cr4 m' = cr4 m
  /\ (msg = "Image needs to start on large page boundary"%string
      \/ msg = "User page cannot be mapped into kernel area"%string).
Proof.
  unfold setup_paging. unfold bind at 1. rewrite is_aligned_22.
  unfold bind at 1. unfold assert_ at 1.
  destruct (0 =? image_start P mod 2 ^ 22).
  2:{ intros H. injection H as <- <-. auto. }
  unfold bind at 1.
  pose proof (map_image_keeps P fuel (image_start P) (page_tables_start P) m) as H1.
  destruct (map_image P fuel (image_start P) (page_tables_start P) m) as [[] m1| |];
    simpl in H1; try contradiction; [|discriminate].
  unfold bind at 1.
  assert (keeps_control_registers m1
            ((if negb (has_pse P)
              then map_tables P fuel (image_start P) (page_tables_start P)
              else ret tt) m1)) as H2.
  { destruct (has_pse P); simpl; [auto|apply map_tables_keeps]. }
  destruct ((if negb (has_pse P)
             then map_tables P fuel (image_start P) (page_tables_start P)
             else ret tt) m1) as [[] m2| |]; simpl in H2; try contradiction; [|discriminate].
  unfold bind at 1. unfold assert_ at 1.
  destruct (u32 (get_user_page P + page_size P) <=? image_start P).
  2:{ intros H. injection H as <- <-.
      destruct H1 as (A & B & C), H2 as (A' & B' & C'). repeat split; try congruence. auto. }
  unfold bind, update, get_cr4, get_cr0, ret.
  destruct (has_pse P || has_smep P); discriminate.
Qed.

(** ** [is_aligned] and the start of the tables *)

(** X11. [is_aligned v order] fails its assertion when [order] is 64 or
    more; for an order from 0 to 63 it returns whether [2 ^ order] divides
    [v], leaving the machine as it was. *)
Theorem is_aligned_divides v order m :
  0 <= order -> 0 <= v ->
  (64 <= order -> is_aligned v order m = AssertFailed "Order out of range" m)
  /\ (order < 64 -> is_aligned v order m = Ok (v mod 2 ^ order =? 0) m).
Proof.
  intros Ho Hv. unfold is_aligned, bind, assert_, ret. split; intros Hr.
  - destruct (Z.ltb_spec order 64); [lia|reflexivity].
  - destruct (Z.ltb_spec order 64); [|lia].
    rewrite Z.shiftl_1_l.
    rewrite (Z.mod_small (2 ^ order)); last first.
    { split; [apply Z.pow_nonneg; lia|apply Z.pow_lt_mono_r; lia]. }
    replace (2 ^ order - 1) with (Z.ones order) by (rewrite Z.ones_equiv; lia).
    rewrite Z.land_ones by lia. rewrite Z.eqb_sym. reflexivity.
Qed.

Lemma is_aligned_divides_witness :
  0 <= 12 /\ 0 <= 0x5000
  /\ is_aligned 0x5000 12 reset_machine = Ok true reset_machine.
Proof.
  split; [lia|]. split; [lia|].
  refine (proj2 (is_aligned_divides 0x5000 12 reset_machine _ _) _); lia.
Defined.

(** X12. When the image end plus 4 MiB plus 4095 stays below [2 ^ 32], the
    tables start at the first multiple of 4096 at or above the image end
    plus 4 MiB. *)
Theorem page_tables_start_rounds_up P :
  0 <= image_end P -> image_end P + 4194304 + 4095 < 2 ^ 32 ->
  page_tables_start P mod 4096 = 0
  /\ image_end P + 4194304 <= page_tables_start P < image_end P + 4194304 + 4096.
Proof.
  intros He Htop. unfold page_tables_start.
  change (Z.shiftl 1 22) with 4194304.
  rewrite (u32_small (image_end P + 4194304)) by lia.
  set (s := image_end P + 4194304) in *.
  assert (Z.land s 4095 = s mod 4096) as Hland
    by (change 4095 with (Z.ones 12); rewrite Z.land_ones by lia; reflexivity).
  rewrite Hland.
  pose proof (Z.mod_pos_bound s 4096 ltac:(lia)) as Hm.
  pose proof (Z.div_mod s 4096 ltac:(lia)) as Hdm.
  destruct (Z.eqb_spec (s mod 4096) 0) as [Hz|Hnz]; cbn [negb]; cbv iota.
  - lia.
  - rewrite (u32_small (s + 4095)) by lia.
    change (Z.lnot 4095) with (Z.lnot (Z.ones 12)).
    rewrite <- Z.ldiff_land, Z.ldiff_ones_r by lia.
    rewrite Z.shiftr_div_pow2, Z.shiftl_mul_pow2 by lia.
    change (2 ^ 12) with 4096.
    split.
    + apply Z.mod_mul. lia.
    + assert ((s + 4095) / 4096 = s / 4096 + 1) as Hq.
      { symmetry. apply (Z.div_unique (s + 4095) 4096 (s / 4096 + 1) (s mod 4096 - 1)); lia. }
      rewrite Hq. lia.
Qed.

Lemma page_tables_start_rounds_up_witness :
  0 <= image_end (i386_platform 0x400000 0x4FFFFF false)
  /\ page_tables_start (i386_platform 0x400000 0x4FFFFF false) = 0x900000
  /\ page_tables_start (i386_platform 0x400000 0x4FFFFF false) mod 4096 = 0.
Proof.
  assert (0 <= image_end (i386_platform 0x400000 0x4FFFFF false)) as H by (simpl; lia).
  split; [exact H|]. split; [reflexivity|].
  refine (proj1 (page_tables_start_rounds_up (i386_platform 0x400000 0x4FFFFF false) H _)).
  simpl. lia.
Defined.

(** ** A run of [setup_paging] on a sound layout *)

Lemma image_chunks_bounds P :
  0 <= image_start P <= image_end P -> image_end P < 2 ^ 32 ->
  1 <= image_chunks P <= 1024
  /\ image_start P + 4194304 * image_chunks P <= image_end P + 4194304
  /\ image_end P < image_start P + 4194304 * image_chunks P.
Proof.
  intros Hse Htop. unfold image_chunks.
  destruct (Z.leb_spec (image_start P) (image_end P)); [|lia].
  change (2 ^ 22) with 4194304.
  pose proof (Z.div_mod (image_end P - image_start P) 4194304 ltac:(lia)) as Hdm.
  pose proof (Z.mod_pos_bound (image_end P - image_start P) 4194304 ltac:(lia)) as Hm.
  assert (0 <= (image_end P - image_start P) / 4194304) by (apply Z.div_pos; lia).
  assert ((image_end P - image_start P) / 4194304 < 1024)
    by (apply Z.div_lt_upper_bound; lia).
  lia.
Qed.

(** The two loops over a well-placed image end normally and leave the
    control registers alone. *)
Lemma image_loops_run P fuel m :
  0 <= image_start P <= image_end P -> image_end P + 2 ^ 23 + 2 ^ 13 < 2 ^ 32 ->
  (2051 <= fuel)%nat ->
  exists m1 m2,
    map_image P fuel (image_start P) (page_tables_start P) m = Ok tt m1
    /\ (if negb (has_pse P)
        then map_tables P fuel (image_start P) (page_tables_start P)
        else ret tt) m1 = Ok tt m2
    /\ cr0 m2 = cr0 m /\ cr3 m2 = cr3 m /\ cr4 m2 = cr4 m.
Proof.
  intros Hse Htop Hfuel.
  destruct (image_chunks_bounds P Hse ltac:(lia)) as (Hn & Hlast & Hend).
  change (2 ^ 23) with 8388608 in Htop. change (2 ^ 13) with 8192 in Htop.
  destruct (page_tables_start_rounds_up P ltac:(lia) ltac:(lia)) as (_ & Hpts).
  set (n := Z.to_nat (image_chunks P)).
  assert (Z.of_nat n = image_chunks P) as Hnz by (unfold n; lia).
  destruct (map_image_run P n fuel (image_start P) (page_tables_start P) m)
    as (m1 & Hrun1 & A0 & A3 & A4 & _); try lia.
  exists m1.
  destruct (has_pse P); simpl.
  - exists m1. auto.
  - destruct (map_tables_run P n fuel (image_start P) (page_tables_start P) m1)
      as (m2 & Hrun2 & B0 & B3 & B4 & _); try lia.
    exists m2. repeat split; try assumption; congruence.
Qed.

Lemma setup_paging_run P fuel m :
  sound_layout P ->
  bit_select P 32 22 (get_user_page P) = Z.shiftr (get_user_page P) 22 ->
  (2051 <= fuel)%nat ->
  exists m',
    setup_paging P fuel m = Ok tt m'
    /\ cr3 m' = pdt_addr P
    /\ cr0 m' = Z.lor (Z.lor (cr0 m) (CR0_PG P)) (if has_wp P then CR0_WP P else 0)
    /\ cr4 m' = (if has_pse P || has_smep P
                 then Z.lor (Z.lor (cr4 m) (if has_pse P then CR4_PSE P else 0))
                            (if has_smep P then CR4_SMEP P else 0)
                 else cr4 m)
    /\ (forall k, 0 <= k < image_chunks P ->
          read (Pdt (Z.shiftr (image_start P) 22 + k)) m'
          = Some (Z.lor (Z.lor (PTE_P P) (PTE_W P))
                    (if has_pse P then Z.lor (image_start P + 4194304 * k) (PTE_PS P)
                     else page_tables_start P + 4096 * k)))
    /\ (has_pse P = false ->
        forall k j, 0 <= k < image_chunks P -> 0 <= j < 1024 ->
          read (Phys (page_tables_start P + 4096 * k + 4 * j)) m'
          = Some (Z.lor (Z.lor (image_start P + 4194304 * k + 4096 * j) (PTE_P P)) (PTE_W P)))
    /\ read (Pdt (Z.shiftr (get_user_page P) 22)) m'
       = Some (Z.lor (Z.lor (user_pt_addr P) (PTE_U P)) (PTE_P P))
    /\ read (UserPt (bit_select P 22 12 (get_user_page P))) m'
       = Some (Z.lor (Z.lor (user_page_backing_addr P) (PTE_U P)) (PTE_P P)).
Proof.
  intros Hlay Hbits Hfuel.
  destruct Hlay as (Hal & Hse & Htop & Hps & Hup).
  destruct (image_chunks_bounds P Hse ltac:(lia)) as (Hn & Hlast & Hend).
  change (2 ^ 23) with 8388608 in Htop. change (2 ^ 13) with 8192 in Htop.
  change (2 ^ 20) with 1048576 in Hup.
  destruct (page_tables_start_rounds_up P ltac:(lia) ltac:(lia)) as (_ & Hpts).
  assert (get_user_page P = 1048576 + page_size P) as Hupv.
  { unfold get_user_page. change (Z.shiftl 1 20) with 1048576. apply u32_small. lia. }
  assert (Z.shiftr (get_user_page P) 22 < Z.shiftr (image_start P) 22) as Hbelow.
  { rewrite !Z.shiftr_div_pow2 by lia. change (2 ^ 22) with 4194304 in *.
    pose proof (Z.div_mod (image_start P) 4194304 ltac:(lia)) as Hdm.
    apply Z.div_lt_upper_bound; lia. }
  set (n := Z.to_nat (image_chunks P)).
  assert (Z.of_nat n = image_chunks P) as Hnz by (unfold n; lia).
  unfold setup_paging. unfold bind at 1. rewrite is_aligned_22.
  destruct (Z.eqb_spec 0 (image_start P mod 2 ^ 22)) as [_|Hne]; [|lia].
  unfold bind at 1. unfold assert_ at 1.
  destruct (map_image_run P n fuel (image_start P) (page_tables_start P) m)
    as (m1 & Hrun1 & A0 & A3 & A4 & Aread & Aframe); try lia.
  unfold bind at 1. rewrite Hrun1.
  assert (exists m2,
            (if negb (has_pse P)
             then map_tables P fuel (image_start P) (page_tables_start P)
             else ret tt) m1 = Ok tt m2
            /\ cr0 m2 = cr0 m1 /\ cr3 m2 = cr3 m1 /\ cr4 m2 = cr4 m1
            /\ (has_pse P = false ->
                forall k j, 0 <= k < image_chunks P -> 0 <= j < 1024 ->
                  read (Phys (page_tables_start P + 4096 * k + 4 * j)) m2
                  = Some (Z.lor (Z.lor (image_start P + 4194304 * k + 4096 * j) (PTE_P P))
                            (PTE_W P)))
            /\ (forall i, read (Pdt i) m2 = read (Pdt i) m1))
    as (m2 & Hrun2 & B0 & B3 & B4 & Bread & Bframe).
  { destruct (has_pse P) eqn:Hpse; simpl.
    - exists m1. split; [reflexivity|]. repeat split; try reflexivity. discriminate.
    - destruct (map_tables_run P n fuel (image_start P) (page_tables_start P) m1)
        as (m2 & Hrun2 & B0 & B3 & B4 & Bread & Bframe); try lia.
      exists m2. split; [exact Hrun2|]. split; [exact B0|]. split; [exact B3|].
      split; [exact B4|]. split.
      + intros _ k j Hk Hj. apply Bread; lia.
      + intros i. apply Bframe. intros a Ha. discriminate Ha. }
  unfold bind at 1. rewrite Hrun2.
  unfold bind at 1. unfold assert_ at 1.
  assert ((u32 (get_user_page P + page_size P) <=? image_start P) = true) as Hok
    by (rewrite Hupv, u32_small by lia; apply Z.leb_le; lia).
  rewrite Hok.
  set (m3 := write (Pdt (bit_select P 32 22 (get_user_page P)))
                   (Z.lor (Z.lor (user_pt_addr P) (PTE_U P)) (PTE_P P)) m2).
  set (m4 := write (UserPt (bit_select P 22 12 (get_user_page P)))
                   (Z.lor (Z.lor (user_page_backing_addr P) (PTE_U P)) (PTE_P P)) m3).
  set (c4 := if has_pse P || has_smep P
             then Z.lor (Z.lor (cr4 m) (if has_pse P then CR4_PSE P else 0))
                        (if has_smep P then CR4_SMEP P else 0)
             else cr4 m).
  exists (Machine (Z.lor (Z.lor (cr0 m) (CR0_PG P)) (if has_wp P then CR0_WP P else 0))
                  (pdt_addr P) c4 (stores m4)).
  split.
  { unfold bind, update, get_cr4, get_cr0, ret. subst c4.
    destruct (has_pse P || has_smep P); unfold set_cr0, set_cr3, set_cr4;
      cbn [cr0 cr3 cr4 stores]; fold m3; fold m4;
      replace (cr0 m4) with (cr0 m) by (cbn [m4 m3 write cr0]; congruence);
      try replace (cr4 m4) with (cr4 m) by (cbn [m4 m3 write cr4]; congruence);
      reflexivity. }
  split; [reflexivity|]. split; [reflexivity|]. split; [reflexivity|].
  assert (forall x, read x (Machine (Z.lor (Z.lor (cr0 m) (CR0_PG P))
                                       (if has_wp P then CR0_WP P else 0))
                              (pdt_addr P) c4 (stores m4)) = read x m4) as Hread
    by reflexivity.
  rewrite !Hread. setoid_rewrite Hread. clear Hread.
  subst m4 m3. rewrite Hbits.
  split; [|split; [|split]].
  - intros k Hk.
    rewrite read_write_ne by discriminate.
    rewrite read_write_ne by (intros Heq; injection Heq; lia).
    rewrite Bframe, Aread by lia. f_equal. f_equal.
    destruct (has_pse P); [reflexivity|].
    destruct (Z.eqb_spec k 0) as [->|Hk0]; [lia|]. apply u32_small. lia.
  - intros Hpse k j Hk Hj.
    rewrite !read_write_ne by discriminate. apply Bread; assumption.
  - rewrite read_write_ne by discriminate. apply read_write_eq.
  - apply read_write_eq.
Qed.

Lemma i386_layout_sound pse : sound_layout (i386_platform 0x400000 0x900000 pse).
Proof. unfold sound_layout. cbn. repeat split; try reflexivity; lia. Qed.

Lemma i386_bits pse :
  bit_select (i386_platform 0x400000 0x900000 pse) 32 22
    (get_user_page (i386_platform 0x400000 0x900000 pse))
  = Z.shiftr (get_user_page (i386_platform 0x400000 0x900000 pse)) 22.
Proof. reflexivity. Qed.

(** X14. On a sound layout [setup_paging] ends normally and switches paging
    on: CR3 holds the address of the page directory, CR0 is its old value
    with the paging bit, and with the write-protect bit when the CPU has it,
    and CR4 gains the large-page and SMEP bits the CPU has and is not written
    when it has neither. *)
Theorem setup_paging_enables_paging P fuel m :
  sound_layout P ->
  bit_select P 32 22 (get_user_page P) = Z.shiftr (get_user_page P) 22 ->
  (2051 <= fuel)%nat ->
  exists m',
    setup_paging P fuel m = Ok tt m'
    /\ cr3 m' = pdt_addr P
    /\ cr0 m' = Z.lor (Z.lor (cr0 m) (CR0_PG P)) (if has_wp P then CR0_WP P else 0)
    /\ cr4 m' = (if has_pse P || has_smep P
                 then Z.lor (Z.lor (cr4 m) (if has_pse P then CR4_PSE P else 0))
                            (if has_smep P then CR4_SMEP P else 0)
                 else cr4 m).
Proof.
  intros Hlay Hbits Hfuel.
  destruct (setup_paging_run P fuel m Hlay Hbits Hfuel) as (m' & Hrun & H3 & H0 & H4 & _).
  exists m'. auto.
Qed.

Lemma setup_paging_enables_paging_witness :
  sound_layout i386_pse
  /\ exists m', setup_paging i386_pse 2051 reset_machine = Ok tt m'
                /\ cr3 m' = 0x500000 /\ cr0 m' = 0x80000011 /\ cr4 m' = 0x10.
Proof.
  split; [exact (i386_layout_sound true)|].
  destruct (setup_paging_enables_paging i386_pse 2051 reset_machine
              (i386_layout_sound true) (i386_bits true) (le_n _))
    as (m' & Hrun & H3 & H0 & H4).
  exists m'. split; [exact Hrun|]. split; [exact H3|]. split; [exact H0|exact H4].
Defined.

(** X15. On a sound layout, after [setup_paging] every 4 MiB step [k] of
    the image has its page directory entry, present and writable: with large
    pages the entry maps the step onto itself as a large page; without them
    it points to the [k]-th 4 KiB table after [page_tables_start]. *)
Theorem setup_paging_maps_image P fuel m :
  sound_layout P ->
  bit_select P 32 22 (get_user_page P) = Z.shiftr (get_user_page P) 22 ->
  (2051 <= fuel)%nat ->
  exists m',
    setup_paging P fuel m = Ok tt m'
    /\ 1 <= image_chunks P <= 1024
    /\ image_end P < image_start P + 4194304 * image_chunks P
    /\ forall k, 0 <= k < image_chunks P ->
         read (Pdt (Z.shiftr (image_start P) 22 + k)) m'
         = Some (Z.lor (Z.lor (PTE_P P) (PTE_W P))
                   (if has_pse P then Z.lor (image_start P + 4194304 * k) (PTE_PS P)
                    else page_tables_start P + 4096 * k)).
Proof.
  intros Hlay Hbits Hfuel.
  destruct (setup_paging_run P fuel m Hlay Hbits Hfuel)
    as (m' & Hrun & _ & _ & _ & Hpde & _).
  destruct Hlay as (_ & Hse & Htop & _).
  destruct (image_chunks_bounds P Hse ltac:(lia)) as (Hn & _ & Hend).
  exists m'. auto.
Qed.

Lemma setup_paging_maps_image_witness :
  sound_layout i386_pse
  /\ exists m', setup_paging i386_pse 2051 reset_machine = Ok tt m'
                /\ read (Pdt 2) m' = Some 0x800083.
Proof.
  split; [exact (i386_layout_sound true)|].
  destruct (setup_paging_maps_image i386_pse 2051 reset_machine
              (i386_layout_sound true) (i386_bits true) (le_n _))
    as (m' & Hrun & _ & _ & Hpde).
  exists m'. split; [exact Hrun|].
  refine (Hpde 1 _). vm_compute. split; [discriminate|reflexivity].
Defined.

(** X16. On a sound layout of a CPU without large pages, after
    [setup_paging] entry [j] of the table of step [k], for [j] from 0 to
    1023, maps the 4 KiB page at [image_start + 4 MiB * k + 4 KiB * j] onto
    itself, present and writable: the tables map the image one to one, and
    the store past the end of a table does not spoil the next table. *)
Theorem setup_paging_fills_tables P fuel m :
  sound_layout P -> has_pse P = false ->
  bit_select P 32 22 (get_user_page P) = Z.shiftr (get_user_page P) 22 ->
  (2051 <= fuel)%nat ->
  exists m',
    setup_paging P fuel m = Ok tt m'
    /\ forall k j, 0 <= k < image_chunks P -> 0 <= j < 1024 ->
         read (Phys (page_tables_start P + 4096 * k + 4 * j)) m'
         = Some (Z.lor (Z.lor (image_start P + 4194304 * k + 4096 * j) (PTE_P P)) (PTE_W P)).
Proof.
  intros Hlay Hpse Hbits Hfuel.
  destruct (setup_paging_run P fuel m Hlay Hbits Hfuel)
    as (m' & Hrun & _ & _ & _ & _ & Hpte & _).
  exists m'. split; [exact Hrun|]. exact (Hpte Hpse).
Qed.

Lemma setup_paging_fills_tables_witness :
  sound_layout i386_no_pse /\ has_pse i386_no_pse = false
  /\ exists m', setup_paging i386_no_pse 2051 reset_machine = Ok tt m'
                /\ read (Phys 0xD01000) m' = Some 0x800003.
Proof.
  split; [exact (i386_layout_sound false)|]. split; [reflexivity|].
  destruct (setup_paging_fills_tables i386_no_pse 2051 reset_machine
              (i386_layout_sound false) eq_refl (i386_bits false) (le_n _))
    as (m' & Hrun & Hpte).
  exists m'. split; [exact Hrun|].
  refine (Hpte 1 0 _ _); (vm_compute; split; [discriminate|reflexivity]).
Defined.

(** X17. On a sound layout, after [setup_paging] the page directory entry
    of the user page points to [user_pt] and the entry of the user page in
    [user_pt] points to [user_page_backing], both present and open to
    reduced privilege, and the directory entry is none of the entries of
    the image. *)
Theorem setup_paging_maps_user_page P fuel m :
  sound_layout P ->
  bit_select P 32 22 (get_user_page P) = Z.shiftr (get_user_page P) 22 ->
  (2051 <= fuel)%nat ->
  exists m',
    setup_paging P fuel m = Ok tt m'
    /\ get_user_page P = 1048576 + page_size P
    /\ Z.shiftr (get_user_page P) 22 < Z.shiftr (image_start P) 22
    /\ read (Pdt (Z.shiftr (get_user_page P) 22)) m'
       = Some (Z.lor (Z.lor (user_pt_addr P) (PTE_U P)) (PTE_P P))
    /\ read (UserPt (bit_select P 22 12 (get_user_page P))) m'
       = Some (Z.lor (Z.lor (user_page_backing_addr P) (PTE_U P)) (PTE_P P)).
Proof.
  intros Hlay Hbits Hfuel.
  destruct (setup_paging_run P fuel m Hlay Hbits Hfuel)
    as (m' & Hrun & _ & _ & _ & _ & _ & Hupde & Hupte).
  destruct Hlay as (Hal & Hse & Htop & Hps & Hup).
  change (2 ^ 20) with 1048576 in Hup.
  assert (get_user_page P = 1048576 + page_size P) as Hupv.
  { unfold get_user_page. change (Z.shiftl 1 20) with 1048576. apply u32_small. lia. }
  exists m'. split; [exact Hrun|]. split; [exact Hupv|]. split; [|split; assumption].
  rewrite !Z.shiftr_div_pow2 by lia. change (2 ^ 22) with 4194304 in *.
  pose proof (Z.div_mod (image_start P) 4194304 ltac:(lia)) as Hdm.
  apply Z.div_lt_upper_bound; lia.
Qed.

Lemma setup_paging_maps_user_page_witness :
  sound_layout i386_no_pse
  /\ exists m', setup_paging i386_no_pse 2051 reset_machine = Ok tt m'
                /\ read (Pdt 0) m' = Some 0x501005
                /\ read (UserPt 0x101) m' = Some 0x502005.
Proof.
  split; [exact (i386_layout_sound false)|].
  destruct (setup_paging_maps_user_page i386_no_pse 2051 reset_machine
              (i386_layout_sound false) (i386_bits false) (le_n _))
    as (m' & Hrun & _ & _ & Hpde & Hpte).
  exists m'. split; [exact Hrun|]. split; [exact Hpde|exact Hpte].
Defined.

Lemma setup_paging_fails_before_control_registers_witness :
  setup_paging (i386_platform 0 0x900000 true) 2051 reset_machine
  = AssertFailed "User page cannot be mapped into kernel area"
      (Machine 0x11 0 0 [(Pdt 2, 0x800083); (Pdt 1, 0x400083); (Pdt 0, 0x83)])
  /\ cr0 (Machine 0x11 0 0 [(Pdt 2, 0x800083); (Pdt 1, 0x400083); (Pdt 0, 0x83)])
     = cr0 reset_machine.
Proof.
  assert (setup_paging (i386_platform 0 0x900000 true) 2051 reset_machine
          = AssertFailed "User page cannot be mapped into kernel area"
              (Machine 0x11 0 0 [(Pdt 2, 0x800083); (Pdt 1, 0x400083); (Pdt 0, 0x83)]))
    as Hrun by (vm_compute; reflexivity).
  split; [exact Hrun|].
  exact (proj1 (setup_paging_fails_before_control_registers _ _ _ _ _ Hrun)).
Defined.

(** X18. When the user page does not end at or below the image start,
    [setup_paging] never ends normally, whatever the budget of the loops;
    and on an image that starts on a 4 MiB boundary and fits below 4 GiB with
    its tables, it ends in the failed assertion on the user page, with the
    control registers as they were. *)
Theorem setup_paging_user_page_overlap P fuel m :
  image_start P < u32 (get_user_page P + page_size P) ->
  (forall m', setup_paging P fuel m <> Ok tt m')
  /\ (image_start P mod 2 ^ 22 = 0 -> 0 <= image_start P <= image_end P ->
      image_end P + 2 ^ 23 + 2 ^ 13 < 2 ^ 32 -> (2051 <= fuel)%nat ->
      exists m', setup_paging P fuel m
                 = AssertFailed "User page cannot be mapped into kernel area" m'
                 /\ cr0 m' = cr0 m /\ cr3 m' = cr3 m /\ cr4 m' = cr4 m).
Proof.
  intros Hover.
  assert ((u32 (get_user_page P + page_size P) <=? image_start P) = false) as Htest
    by (apply Z.leb_gt; exact Hover).
  split.
  - intros m'. unfold setup_paging. unfold bind at 1. rewrite is_aligned_22.
    unfold bind at 1. unfold assert_ at 1.
    destruct (0 =? image_start P mod 2 ^ 22); [|discriminate].
    unfold bind at 1.
    destruct (map_image P fuel (image_start P) (page_tables_start P) m) as [[] m1| |];
      try discriminate.
    unfold bind at 1.
    destruct ((if negb (has_pse P)
               then map_tables P fuel (image_start P) (page_tables_start P)
               else ret tt) m1) as [[] m2| |]; try discriminate.
    unfold bind at 1. unfold assert_ at 1. rewrite Htest. discriminate.
  - intros Hal Hse Htop Hfuel.
    destruct (image_loops_run P fuel m Hse Htop Hfuel) as (m1 & m2 & H1 & H2 & C0 & C3 & C4).
    exists m2. split; [|auto].
    unfold setup_paging. unfold bind at 1. rewrite is_aligned_22.
    destruct (Z.eqb_spec 0 (image_start P mod 2 ^ 22)) as [_|Hne]; [|lia].
    unfold bind at 1. unfold assert_ at 1.
    unfold bind at 1. rewrite H1.
    unfold bind at 1. rewrite H2.
    unfold bind at 1. unfold assert_ at 1. rewrite Htest. reflexivity.
Qed.

Lemma setup_paging_user_page_overlap_witness :
  image_start (i386_platform 0 0x900000 true)
  < u32 (get_user_page (i386_platform 0 0x900000 true)
         + page_size (i386_platform 0 0x900000 true))
  /\ forall m', setup_paging (i386_platform 0 0x900000 true) 2051 reset_machine <> Ok tt m'.
Proof.
  assert (image_start (i386_platform 0 0x900000 true)
          < u32 (get_user_page (i386_platform 0 0x900000 true)
                 + page_size (i386_platform 0 0x900000 true))) as H
    by (vm_compute; reflexivity).
  split; [exact H|].
  exact (proj1 (setup_paging_user_page_overlap (i386_platform 0 0x900000 true) 2051
                  reset_machine H)).
Defined.

(** ** [irq_entry] and the continuation *)

(** X19. [irq_entry] hands control back to the privileged caller exactly
    when the frame comes from reduced privilege and a continuation is
    pending; it then resumes at that continuation on the stack pointer saved
    in [tss.esp0] and leaves no continuation pending, so that the next
    exception, whatever its frame, ends in the halt: the continuation is used
    once. *)
Theorem irq_entry_continuation_once ef k esp eip k' :
  irq_entry ef k = Resumes esp eip k' ->
  Z.land (cs ef) 3 <> 0
  /\ eip = ring0_continuation k /\ eip <> 0
  /\ esp = tss_esp0 k
  /\ ring0_continuation k' = 0 /\ ring3_exception_frame k' = 0
  /\ forall ef', irq_entry ef' k'
                 = Halts (Kernel 0 0 (tss_esp0 k') (frames k') (cr2 k')
                                 (console k' ++ dead_report ef' k')).
Proof.
  unfold irq_entry at 1.
  destruct (Z.eqb_spec (Z.land (cs ef) 3) 0) as [|Hcs]; [discriminate|].
  destruct (Z.eqb_spec (ring0_continuation k) 0) as [|Hcont]; [discriminate|].
  simpl.
  destruct (Z.eqb_spec (ring3_exception_frame k) 0) as [Hslot|Hslot]; simpl;
    intros H; injection H as <- <- <-; simpl;
    (split; [exact Hcs|]; split; [reflexivity|]; split; [exact Hcont|];
     split; [reflexivity|]; split; [reflexivity|]; split; [try reflexivity; try exact Hslot|]).
  - intros ef'. unfold irq_entry. simpl. rewrite andb_false_r.
    unfold print_exception, format, dead_report. simpl.
    rewrite <- !app_assoc. rewrite Hslot. reflexivity.
  - intros ef'. unfold irq_entry. simpl. rewrite andb_false_r.
    unfold print_exception, format, dead_report. simpl.
    rewrite <- !app_assoc. reflexivity.
Qed.

Lemma irq_entry_continuation_once_witness :
  irq_entry user_fault sandbox_pending
  = Resumes 0x80000 0x401234 (Kernel 0 0 0x80000 (<[0x7FF00 := user_fault]> ∅) 0 [])
  /\ Z.land (cs user_fault) 3 <> 0.
Proof.
  assert (irq_entry user_fault sandbox_pending
          = Resumes 0x80000 0x401234 (Kernel 0 0 0x80000 (<[0x7FF00 := user_fault]> ∅) 0 []))
    as Hrun by reflexivity.
  split; [exact Hrun|].
  exact (proj1 (irq_entry_continuation_once _ _ _ _ _ Hrun)).
Defined.

(** X20. When the frame comes from the privileged context, or no
    continuation is pending, [irq_entry] prints the report and halts: it
    does not resume, stores no frame, and leaves the continuation and the
    capture pointer as they were, also when a continuation was pending. *)
Theorem irq_entry_halts_unless_armed ef k :
  Z.land (cs ef) 3 = 0 \/ ring0_continuation k = 0 ->
  irq_entry ef k
  = Halts (Kernel (ring0_continuation k) (ring3_exception_frame k) (tss_esp0 k)
                  (frames k) (cr2 k) (console k ++ dead_report ef k)).
Proof.
  intros H. unfold irq_entry.
  assert (negb (Z.land (cs ef) 3 =? 0) && negb (ring0_continuation k =? 0) = false) as Hc.
  { destruct H as [H|H]; rewrite H; simpl; [reflexivity|apply andb_false_r]. }
  rewrite Hc. unfold print_exception, format, dead_report. simpl.
  rewrite <- !app_assoc. reflexivity.
Qed.

Lemma irq_entry_halts_unless_armed_witness :
  (Z.land (cs (ExceptionFrame 14 2 0x08 0x401000 0x2 0 1 2 [])) 3 = 0
   \/ ring0_continuation sandbox_pending = 0)
  /\ exists k', irq_entry (ExceptionFrame 14 2 0x08 0x401000 0x2 0 1 2 []) sandbox_pending
                = Halts k'
                /\ ring0_continuation k' = 0x401234.
Proof.
  assert (Z.land (cs (ExceptionFrame 14 2 0x08 0x401000 0x2 0 1 2 [])) 3 = 0
          \/ ring0_continuation sandbox_pending = 0) as H by (left; reflexivity).
  split; [exact H|].
  eexists. split; [exact (irq_entry_halts_unless_armed _ _ H)|]. reflexivity.
Defined.

(** X21. With a continuation pending but no capture slot supplied, a frame
    from reduced privilege resumes the caller all the same and is stored
    nowhere: the frames in memory are unchanged. *)
Theorem irq_entry_without_capture_slot ef k :
  Z.land (cs ef) 3 <> 0 -> ring0_continuation k <> 0 -> ring3_exception_frame k = 0 ->
  irq_entry ef k
  = Resumes (tss_esp0 k) (ring0_continuation k)
            (Kernel 0 0 (tss_esp0 k) (frames k) (cr2 k) (console k)).
Proof.
  intros Hcs Hcont Hslot. unfold irq_entry.
  apply Z.eqb_neq in Hcs, Hcont. rewrite Hcs, Hcont. simpl.
  rewrite Hslot. reflexivity.
Qed.

Lemma irq_entry_without_capture_slot_witness :
  Z.land (cs user_fault) 3 <> 0
  /\ irq_entry user_fault (Kernel 0x401234 0 0x80000 ∅ 0 [])
     = Resumes 0x80000 0x401234 (Kernel 0 0 0x80000 ∅ 0 []).
Proof.
  assert (Z.land (cs user_fault) 3 <> 0) as H by (vm_compute; discriminate).
  split; [exact H|].
  refine (irq_entry_without_capture_slot user_fault (Kernel 0x401234 0 0x80000 ∅ 0 []) H _ _).
  - vm_compute. discriminate.
  - reflexivity.
Defined.

(** ** [execute_user] and [irq_entry] together *)

(** X22. A run of [execute_user]: the frame it jumps to [irq_exit] on has
    the reduced-privilege selectors, the given entry address and flags 0x102,
    trap flag set; whatever frame the first exception from reduced privilege
    delivers, [irq_entry] resumes at the label [1] on the stack pointer
    [execute_user] was entered with, [execute_user] returns that very frame
    and finds EBP and EDI as it was entered with, whatever the run left in
    them, and no continuation is left pending. *)
Theorem execute_user_returns_fault S blank ip user_addr esp resume r k ef :
  user_addr <> 0 -> resume <> 0 -> Z.land (cs ef) 3 <> 0 ->
  let entered := execute_user_enter S blank ip user_addr esp resume r k in
  let r1 := entered.1.1 in
  let k1 := entered.1.2 in
  entered.2 = user_addr
  /\ frames k1 !! user_addr = Some (execute_user_frame S blank ip)
  /\ cs (execute_user_frame S blank ip) = ring3_code_selector S
  /\ ss (execute_user_frame S blank ip) = ring3_data_selector S
  /\ Arch.ip (execute_user_frame S blank ip) = ip
  /\ eflags (execute_user_frame S blank ip) = 0x102
  /\ Z.testbit (eflags (execute_user_frame S blank ip)) 8 = true
  /\ exists k2,
       irq_entry ef k1 = Resumes esp resume k2
       /\ ring0_continuation k2 = 0 /\ ring3_exception_frame k2 = 0
       /\ forall ebp' edi',
            execute_user_leave user_addr
              (KeptRegs ebp' edi' (clobbered_ebp r1) (clobbered_edi r1)) k2
            = (KeptRegs (reg_ebp r) (reg_edi r) (reg_ebp r) (reg_edi r), Some ef).
Proof.
  intros Hu Hr Hcs. cbv zeta. unfold execute_user_enter. cbn [fst snd].
  split; [reflexivity|]. split; [apply lookup_insert_eq|].
  split; [reflexivity|]. split; [reflexivity|]. split; [reflexivity|].
  split; [reflexivity|]. split; [reflexivity|].
  unfold irq_entry. cbn [ring0_continuation ring3_exception_frame tss_esp0 frames cr2 console].
  apply Z.eqb_neq in Hcs, Hr, Hu. rewrite Hcs, Hr, Hu. cbn [negb andb].
  eexists. split; [reflexivity|]. cbn [ring0_continuation ring3_exception_frame frames].
  split; [reflexivity|]. split; [reflexivity|].
  intros ebp' edi'. unfold execute_user_leave. cbn [clobbered_ebp clobbered_edi frames].
  rewrite lookup_insert_eq. reflexivity.
Qed.

Lemma execute_user_returns_fault_witness :
  0x7FF00 <> 0 /\ 0x401234 <> 0 /\ Z.land (cs user_fault) 3 <> 0
  /\ exists k2,
       irq_entry user_fault
         (execute_user_enter i386_selectors blank_frame 0x101000 0x7FF00 0x80000 0x401234
            (KeptRegs 7 9 0 0) (Kernel 0 0 0 ∅ 0 [])).1.2
       = Resumes 0x80000 0x401234 k2
       /\ execute_user_leave 0x7FF00 (KeptRegs 0 0 7 9) k2
          = (KeptRegs 7 9 7 9, Some user_fault).
Proof.
  assert (0x7FF00 <> 0) as H1 by lia.
  assert (0x401234 <> 0) as H2 by lia.
  assert (Z.land (cs user_fault) 3 <> 0) as H3 by (vm_compute; discriminate).
  split; [exact H1|]. split; [exact H2|]. split; [exact H3|].
  destruct (execute_user_returns_fault i386_selectors blank_frame 0x101000 0x7FF00
              0x80000 0x401234 (KeptRegs 7 9 0 0) (Kernel 0 0 0 ∅ 0 []) user_fault
              H1 H2 H3) as (_ & _ & _ & _ & _ & _ & _ & k2 & Hrun & _ & _ & Hleave).
  exists k2. split; [exact Hrun|]. exact (Hleave 0 0).
Defined.

(** ** [setup_idt] *)

Lemma ptr_to_u64_inj p q :
  0 <= p < 2 ^ 32 -> 0 <= q < 2 ^ 32 -> ptr_to_u64 p = ptr_to_u64 q -> p = q.
Proof.
  unfold ptr_to_u64. intros Hp Hq.
  destruct (Z.ltb_spec p (2 ^ 31)); destruct (Z.ltb_spec q (2 ^ 31)); lia.
Qed.

(** X23. For at least one entry stub and a stub region inside the 32-bit
    address space that does not end before it starts, the table of
    [setup_idt] has one gate per stub, all on the privileged code selector;
    the stub of gate [i] is [i] strides into the region and a whole stride
    from it still lies inside the region; the gate holds the address of the
    stub as the cast gives it: the address itself below [2^31], the address
    with ones in the upper 32 bits from [2^31] on; when the region has at
    least one byte per stub the gates hold pairwise different values. *)
Theorem setup_idt_gates S irq_entry_start irq_entry_end irq_entry_count :
  0 < irq_entry_count ->
  0 <= irq_entry_start -> irq_entry_start <= irq_entry_end -> irq_entry_end < 2 ^ 32 ->
  let idt := setup_idt S irq_entry_start irq_entry_end irq_entry_count in
  let size := (irq_entry_end - irq_entry_start) / irq_entry_count in
  Z.of_nat (length idt) = irq_entry_count
  /\ (forall i : nat, Z.of_nat i < irq_entry_count ->
        let stub := irq_entry_start + Z.of_nat i * size in
        exists g, idt !! i = Some g
          /\ gate_selector g = ring0_code_selector S
          /\ irq_entry_start <= stub /\ stub + size <= irq_entry_end
          /\ (stub < 2 ^ 31 -> gate_offset g = stub)
          /\ (2 ^ 31 <= stub -> gate_offset g = stub + (2 ^ 64 - 2 ^ 32)))
  /\ (irq_entry_count <= irq_entry_end - irq_entry_start ->
      forall (i j : nat) g g', idt !! i = Some g -> idt !! j = Some g' ->
        gate_offset g = gate_offset g' -> i = j).
Proof.
  intros Hcount Hstart Hle Hend. cbv zeta. unfold setup_idt.
  set (size := (irq_entry_end - irq_entry_start) / irq_entry_count).
  assert (0 <= size) as Hsize by (apply Z.div_pos; lia).
  assert (irq_entry_count * size <= irq_entry_end - irq_entry_start) as Hfit
    by (apply Z.mul_div_le; lia).
  assert (forall i, 0 <= i < irq_entry_count ->
            irq_entry_start <= irq_entry_start + i * size
            /\ irq_entry_start + i * size + size <= irq_entry_end) as Hin
    by (intros i Hi; nia).
  split; [rewrite length_fmap, length_seqZ; lia|]. split.
  - intros i Hi. destruct (Hin (Z.of_nat i) ltac:(lia)) as (Hlo & Hhi).
    eexists. split.
    + rewrite list_lookup_fmap, lookup_seqZ_lt by lia. reflexivity.
    + cbn [gate_selector gate_offset]. rewrite Z.add_0_l.
      rewrite u32_small by lia.
      split; [reflexivity|]. split; [exact Hlo|]. split; [exact Hhi|].
      unfold ptr_to_u64.
      destruct (Z.ltb_spec (irq_entry_start + Z.of_nat i * size) (2 ^ 31)); split; intros; lia.
  - intros Hbytes i j g g' Hg Hg' Heq.
    assert (1 <= size) as Hpos by (apply Z.div_le_lower_bound; lia).
    rewrite list_lookup_fmap in Hg, Hg'.
    destruct (seqZ 0 irq_entry_count !! i) as [x|] eqn:Ex; [|discriminate].
    destruct (seqZ 0 irq_entry_count !! j) as [y|] eqn:Ey; [|discriminate].
    apply lookup_seqZ in Ex as [-> Hi]. apply lookup_seqZ in Ey as [-> Hj].
    simpl in Hg, Hg'. injection Hg as <-. injection Hg' as <-.
    cbn [gate_offset] in Heq.
    destruct (Hin (Z.of_nat i) ltac:(lia)) as (Hlo & Hhi).
    destruct (Hin (Z.of_nat j) ltac:(lia)) as (Hlo' & Hhi').
    rewrite !Z.add_0_l in Heq.
    apply ptr_to_u64_inj in Heq; try apply u32_range.
    rewrite !u32_small in Heq by lia. nia.
Qed.

Lemma setup_idt_gates_witness :
  0 < 32 /\ 0 <= 0xC0000000 /\ 0xC0000000 <= 0xC0000200 /\ 0xC0000200 < 2 ^ 32
  /\ setup_idt i386_selectors 0xC0000000 0xC0000200 32 !! 3%nat
     = Some (InterruptGate 0x08 0xFFFFFFFFC0000030 0 0)
  /\ setup_idt i386_selectors 0x402000 0x402200 32 !! 3%nat
     = Some (InterruptGate 0x08 0x402030 0 0)
  /\ Z.of_nat (length (setup_idt i386_selectors 0xC0000000 0xC0000200 32)) = 32.
Proof.
  assert (0 < 32) as H1 by lia. assert (0 <= 0xC0000000) as H2 by lia.
  assert (0xC0000000 <= 0xC0000200) as H3 by lia.
  assert (0xC0000200 < 2 ^ 32) as H4 by lia.
  split; [exact H1|]. split; [exact H2|]. split; [exact H3|]. split; [exact H4|].
  split; [reflexivity|]. split; [reflexivity|].
  exact (proj1 (setup_idt_gates i386_selectors 0xC0000000 0xC0000200 32 H1 H2 H3 H4)).
Defined.

End ArchExtra.
